(** * The Reed-Muench titer calculator

    A shallow embedding of [Titer] (src/reedmuench_utils.py, lines 9-75; the
    copy in src/reedmuenchcalculator.py, lines 18-84, is textually the same
    function) and the verification of its specification.

    Conventions of the embedding.
    - Python integers are [Z]; [len] is a [nat].
    - Python dictionaries keyed by row labels are [gmap string _]; a lookup
      of a missing key raises [KeyError], as in Python.
    - Python floats are idealised as exact numbers: the percentages and the
      interpolation index are rationals [Q] (so that the tables and the
      50% scan can be evaluated), the final real-exponent power is
      [Rpower] on [R].  The [OverflowError] of [**] is raised when the
      exact power exceeds the largest finite binary64 number; rounding,
      infinities and NaN of binary64 are not modelled.
    - Exceptions are values of [exn]; a computation is a [result]. *)

From Stdlib Require Import QArith Qround Qreals Reals Psatz.
From stdpp Require Import gmap strings list fin_maps.

Open Scope string_scope.

(** ** Exceptions and the error monad *)

(** The four [ValueError]s raised by [Titer] are told apart by the statement
    that raises them; the other constructors are the exceptions of the
    Python operations the function uses. *)
Inductive exn : Type :=
  | InsufficientReplicates (nreplicates : nat) (* line 38 *)
  | InvalidRowLabel (well : string)            (* line 43 *)
  | FirstDilutionBelow50                       (* line 61 *)
  | NoDilutionBelow50                          (* line 66 *)
  | KeyError (key : string)                    (* d[key], key missing *)
  | IndexError (i : nat)                       (* l[i], i out of range *)
  | NotInList (x : string)                     (* l.index(x), x missing *)
  | ZeroDivisionError                          (* x / 0, 0.0 ** negative *)
  | NegativeToFractionalPower                  (* negative ** non-integer *)
  | OverflowError.                             (* x ** y out of float range *)

Definition result (A : Type) : Type := (exn + A)%type.

Definition ret {A : Type} (a : A) : result A := inr a.
Definition raise {A : Type} (e : exn) : result A := inl e.
Definition bind {A B : Type} (m : result A) (k : A → result B) : result B :=
  match m with
  | inl e => inl e
  | inr a => k a
  end.

Notation "'let*' x ':=' m 'in' k" := (bind m (λ x, k))
  (at level 10, x name, m at level 100, k at level 200,
   format "'[' 'let*'  x  ':='  m  'in' ']' '/' k").

(** ** Python primitives used by [Titer] *)

(** [d[key]] on a dictionary. *)
Definition getitem {V : Type} (d : gmap string V) (key : string) : result V :=
  match d !! key with
  | Some v => ret v
  | None => raise (KeyError key)
  end.

(** [l[i]] on a list, for [i >= 0]. *)
Definition list_getitem (l : list string) (i : nat) : result string :=
  match l !! i with
  | Some x => ret x
  | None => raise (IndexError i)
  end.

(** [l.index(x)]: position of the first occurrence. *)
Fixpoint list_index (l : list string) (x : string) : result nat :=
  match l with
  | [] => raise (NotInList x)
  | y :: l' =>
      if decide (y = x) then ret 0%nat
      else let* i := list_index l' x in ret (S i)
  end.

(** Float division [x / y]. *)
Definition truediv (x y : Q) : result Q :=
  if Qeq_bool y 0 then raise ZeroDivisionError else ret (x / y)%Q.

(** The largest finite binary64 number, (2 - 2^-52) * 2^1023. *)
Definition float_max : Q := inject_Z (2 ^ 1024 - 2 ^ 971).

(** A power whose exact value is [r]: out of the float range it is an
    [OverflowError] (the C library reports a range error). *)
Definition float_range (r : R) : result R :=
  if Rlt_dec (Q2R float_max) (Rabs r) then raise OverflowError else ret r.

(** Float power [x ** y] (CPython's float_pow): [x ** 0] is 1, [0 ** y] is 0
    for positive [y] and an error for negative [y], a negative base needs
    an integral exponent, and a result out of range is an error. *)
Definition float_pow (x y : Q) : result R :=
  if Qeq_bool y 0 then ret 1%R
  else if Qeq_bool x 0 then
    if Qlt_le_dec y 0 then raise ZeroDivisionError else ret 0%R
  else if Qlt_le_dec x 0 then
    if Qeq_bool (inject_Z (Qfloor y)) y
    then float_range (powerRZ (Q2R x) (Qfloor y))
    else raise NegativeToFractionalPower
  else float_range (Rpower (Q2R x) (Q2R y)).

(** ** The function [Titer] *)

(** Line 33: [rows = ['A', ..., 'H']]. *)
Definition rows : list string := ["A"; "B"; "C"; "D"; "E"; "F"; "G"; "H"].

(** Lines 34-35: a copy of [rows], reversed in place. *)
Definition reverserows : list string := reverse rows.

(** Line 39: [counts = dict([(r, 0) for r in rows])]. *)
Definition counts_init : gmap string Z :=
  list_to_map ((λ r, (r, 0%Z)) <$> rows).

(** Lines 41-44: the inner loop over the wells of one replicate. *)
Fixpoint count_wells (replicatewells : list string) (counts : gmap string Z)
  : result (gmap string Z) :=
  match replicatewells with
  | [] => ret counts
  | well :: replicatewells' =>
      if decide (well ∈ rows) then
        let* c := getitem counts well in
        count_wells replicatewells' (<[well := (c + 1)%Z]> counts)
      else raise (InvalidRowLabel well)
  end.

(** Lines 40-44: the outer loop over the replicates. *)
Fixpoint count_replicates (infectedwells : list (list string))
  (counts : gmap string Z) : result (gmap string Z) :=
  match infectedwells with
  | [] => ret counts
  | replicatewells :: infectedwells' =>
      let* counts' := count_wells replicatewells counts in
      count_replicates infectedwells' counts'
  end.

(** Lines 48-50: cumulative totals of uninfected wells going down the plate;
    [n] is the running total. *)
Fixpoint uninfected_loop (nreplicates : Z) (counts : gmap string Z)
  (rs : list string) (n : Z) (uninfected : gmap string Z)
  : result (gmap string Z) :=
  match rs with
  | [] => ret uninfected
  | row :: rs' =>
      let* c := getitem counts row in
      let uninfected' := <[row := (n + nreplicates - c)%Z]> uninfected in
      let* n' := getitem uninfected' row in
      uninfected_loop nreplicates counts rs' n' uninfected'
  end.

(** Lines 52-54: cumulative totals of infected wells going up the plate. *)
Fixpoint infected_loop (counts : gmap string Z)
  (rs : list string) (n : Z) (infected : gmap string Z)
  : result (gmap string Z) :=
  match rs with
  | [] => ret infected
  | row :: rs' =>
      let* c := getitem counts row in
      let infected' := <[row := (n + c)%Z]> infected in
      let* n' := getitem infected' row in
      infected_loop counts rs' n' infected'
  end.

(** Lines 56-57: the cumulative percent infected of every row. *)
Fixpoint percent_loop (infected uninfected : gmap string Z)
  (rs : list string) (percentinfected : gmap string Q)
  : result (gmap string Q) :=
  match rs with
  | [] => ret percentinfected
  | row :: rs' =>
      let* i := getitem infected row in
      let* u := getitem uninfected row in
      let* p := truediv (100 * inject_Z i) (inject_Z (i + u)) in
      percent_loop infected uninfected rs' (<[row := p]> percentinfected)
  end.

(** The tables built by lines 39-57. *)
Record tables : Type := Tables {
  counts : gmap string Z;
  uninfected : gmap string Z;
  infected : gmap string Z;
  percentinfected : gmap string Q
}.

(** Lines 36-57: the replicate check and the four tables. *)
Definition Titer_tables (infectedwells : list (list string)) : result tables :=
  let nreplicates := length infectedwells in
  if decide (nreplicates < 2)%nat then raise (InsufficientReplicates nreplicates)
  else
    let* counts := count_replicates infectedwells counts_init in
    let* uninfected :=
      uninfected_loop (Z.of_nat nreplicates) counts rows 0 ∅ in
    let* infected := infected_loop counts reverserows 0 ∅ in
    let* percentinfected := percent_loop infected uninfected rows ∅ in
    ret (Tables counts uninfected infected percentinfected).

(** Lines 58-66: the [for ... else] scan for the first row below 50%;
    [irows] is what is left of [range(len(rows))]. *)
Fixpoint scan_rows (percentinfected : gmap string Q) (irows : list nat)
  : result string :=
  match irows with
  | [] => raise NoDilutionBelow50
  | irow :: irows' =>
      let* row := list_getitem rows irow in
      let* p := getitem percentinfected row in
      if Qlt_le_dec p 50 then
        if decide (irow = 0)%nat then raise FirstDilutionBelow50
        else list_getitem rows (irow - 1)
      else scan_rows percentinfected irows'
  end.

(** The values bound by lines 58-73. *)
Record crossing : Type := Crossing {
  rowabove50 : string;
  percentrowabove50 : Q;
  percentrowbelow50 : Q;
  index : Q;
  startdilution : nat
}.

(** Lines 58-73: locate the 50% crossing and interpolate. *)
Definition Titer_crossing (percentinfected : gmap string Q) : result crossing :=
  let* rowabove50 := scan_rows percentinfected (seq 0 (length rows)) in
  let* percentrowabove50 := getitem percentinfected rowabove50 in
  let* lastrow := list_getitem rows (length rows - 1) in
  let* percentrowbelow50 :=
    if decide (rowabove50 ≠ lastrow) then
      let* i := list_index rows rowabove50 in
      let* rowbelow := list_getitem rows (i + 1) in
      getitem percentinfected rowbelow
    else ret 0%Q in
  let* index :=
    truediv (percentrowabove50 - 50) (percentrowabove50 - percentrowbelow50) in
  let* startdilution := list_index rows rowabove50 in
  ret (Crossing rowabove50 percentrowabove50 percentrowbelow50
         index startdilution).

(** Line 74: [dilution**(startdilution + index) / volume]. *)
Definition Titer_value (volume dilution : Q) (c : crossing) : result R :=
  let* p :=
    float_pow dilution (inject_Z (Z.of_nat (startdilution c)) + index c) in
  if Qeq_bool volume 0 then raise ZeroDivisionError
  else ret (p / Q2R volume)%R.

(** Lines 9-75. *)
Definition Titer (infectedwells : list (list string)) (volume dilution : Q)
  : result R :=
  let* t := Titer_tables infectedwells in
  let* c := Titer_crossing (percentinfected t) in
  Titer_value volume dilution c.

(** ** Valid inputs (spec section 3) *)

(** A replicate observation is a duplicate-free set of rows A-H. *)
Definition valid_replicate (replicate : list string) : Prop :=
  NoDup replicate ∧ Forall (λ well, well ∈ rows) replicate.

(** A sample assay is a sequence of at least two replicate observations. *)
Definition valid_assay (infectedwells : list (list string)) : Prop :=
  (2 ≤ length infectedwells)%nat ∧ Forall valid_replicate infectedwells.

#[global] Instance valid_replicate_dec replicate :
  Decision (valid_replicate replicate).
Proof. unfold valid_replicate. apply _. Defined.

#[global] Instance valid_assay_dec infectedwells :
  Decision (valid_assay infectedwells).
Proof. unfold valid_assay. apply _. Defined.

(** The example of the docstring of [Titer] (lines 16-19). *)
Definition example_assay : list (list string) :=
  [["A"; "B"; "C"; "D"]; ["A"; "B"; "C"]; ["A"; "B"; "C"; "D"]].

(** ** Cumulative sums along the plate *)

(** The rows of [rs] from the first one down to [row], inclusive. *)
Fixpoint rows_upto (row : string) (rs : list string) : list string :=
  match rs with
  | [] => []
  | r :: rs' => if decide (r = row) then [r] else r :: rows_upto row rs'
  end.

(** The rows of [rs] from [row] down to the last one. *)
Fixpoint rows_from (row : string) (rs : list string) : list string :=
  match rs with
  | [] => []
  | r :: rs' => if decide (r = row) then r :: rs' else rows_from row rs'
  end.

Definition sumZ (f : string → Z) (rs : list string) : Z :=
  foldr (λ r acc, (f r + acc)%Z) 0%Z rs.

#[global] Instance Qlt_decision (x y : Q) : Decision (x < y)%Q :=
  match Qlt_le_dec x y with
  | left H => left H
  | right H => right (Qle_not_lt _ _ H)
  end.

(** ** The algorithm as the specification words it

    These definitions follow spec.md (section 4.1, steps 2-10), not the
    Python source; they are what [Titer] is compared with. *)
Module Spec.

(** count[row]: the number of replicates containing that row. *)
Definition count (assay : list (list string)) (row : string) : Z :=
  Z.of_nat (length (filter (λ replicate, row ∈ replicate) assay)).

Definition nreplicates (assay : list (list string)) : Z :=
  Z.of_nat (length assay).

(** infected[row]: the cumulative sum of count from H up to that row. *)
Definition infected (assay : list (list string)) (row : string) : Z :=
  sumZ (count assay) (reverse (rows_from row rows)).

(** uninfected[row]: the cumulative sum of (nreplicates - count) from A
    down to that row. *)
Definition uninfected (assay : list (list string)) (row : string) : Z :=
  sumZ (λ r, (nreplicates assay - count assay r)%Z) (rows_upto row rows).

Definition percentInfected (assay : list (list string)) (row : string) : Q :=
  100 * inject_Z (infected assay row)
  / inject_Z (infected assay row + uninfected assay row).

(** The first row, scanning A to H, with percentInfected < 50, with its
    zero-based position. *)
Definition firstBelow50 (assay : list (list string)) : option (nat * string) :=
  list_find (λ row, (percentInfected assay row < 50)%Q) rows.

(** rowAbove50: the row immediately preceding it; there is none when no
    row is below 50 or when the first one is row A. *)
Definition rowAbove50 (assay : list (list string)) : option string :=
  match firstBelow50 assay with
  | Some (S k, _) => rows !! k
  | _ => None
  end.

(** The zero-based position of a row in A..H. *)
Definition position (row : string) : nat :=
  from_option fst 0%nat (list_find (λ r, r = row) rows).

Definition pAbove (assay : list (list string)) (rowAbove : string) : Q :=
  percentInfected assay rowAbove.

(** percentInfected of the next row, or 0 if rowAbove50 is H. *)
Definition pBelow (assay : list (list string)) (rowAbove : string) : Q :=
  match rows !! S (position rowAbove) with
  | Some next => percentInfected assay next
  | None => 0
  end.

Definition index (assay : list (list string)) (rowAbove : string) : Q :=
  (pAbove assay rowAbove - 50) / (pAbove assay rowAbove - pBelow assay rowAbove).

Definition startDilution (rowAbove : string) : nat := position rowAbove.

(** titer = dilution ^ (startDilution + index) / volume. *)
Definition titer (assay : list (list string)) (volume dilution : Q)
  (rowAbove : string) : R :=
  (Rpower (Q2R dilution)
     (INR (startDilution rowAbove) + Q2R (index assay rowAbove))
   / Q2R volume)%R.

End Spec.

(** ** Auxiliary functions of the proofs *)

(** Number of times [row] occurs in a list of wells. *)
Fixpoint occurrences (row : string) (wells : list string) : Z :=
  match wells with
  | [] => 0
  | well :: wells' =>
      ((if decide (well = row) then 1 else 0) + occurrences row wells')%Z
  end.

(** Number of wells of the whole assay that are [row]. *)
Definition total (infectedwells : list (list string)) (row : string) : Z :=
  occurrences row (concat infectedwells).

(** What the loops store for [row]: the running total of uninfected wells
    from the first row of the plate down to [row], and of infected wells
    from the last row up to [row]; [c] gives the count of each row. *)
Definition cum_uninfected (nreplicates : Z) (c : string → Z) (row : string) : Z :=
  sumZ (λ r, (nreplicates - c r)%Z) (rows_upto row rows).

Definition cum_infected (c : string → Z) (row : string) : Z :=
  sumZ c (rows_upto row reverserows).

Definition percent (nreplicates : Z) (c : string → Z) (row : string) : Q :=
  100 * inject_Z (cum_infected c row)
  / inject_Z (cum_infected c row + cum_uninfected nreplicates c row).

(** The crossing read off a percentage function [P]: the first row below
    50%, the row before it, and the interpolation between those two. *)
Definition find_crossing (P : string → Q) : result crossing :=
  match list_find (λ row, (P row < 50)%Q) rows with
  | None => inl NoDilutionBelow50
  | Some (O, _) => inl FirstDilutionBelow50
  | Some (S k, next) =>
      match rows !! k with
      | Some above =>
          inr (Crossing above (P above) (P next)
                 ((P above - 50) / (P above - P next))%Q k)
      | None => inl (IndexError k)
      end
  end.

(** ** The script: [ParseInput], [AskOverwrite] and the titer loop of [main]
    (src/reedmuenchcalculator.py, lines 87-222)

    Conventions of this part.
    - The file is given by the list of its lines, as [readlines()] returns
      them.  The regular-expression engine and the conversions [float] and
      [int] are library code: they are parameters ([re_search pattern group
      subject] is the text of the named group of
      [re.compile(pattern).search(subject)], or [None]); the patterns are the
      literals of the source.
    - Console input is the list of the lines still to be read by
      [raw_input]; reading past its end raises [EOFError].  Printing is not
      modelled. *)

(** The messages of the [IOError]s raised by [ParseInput]. *)
Inductive ioerror : Type :=
  | FailedVolume                                   (* line 114 *)
  | FailedDilution                                 (* line 119 *)
  | DilutionNotAbove1 (dilution : Q)               (* line 122 *)
  | FailedNreplicates                              (* line 126 *)
  | TooFewReplicates (nreplicates : Z)             (* line 129 *)
  | BadLineCount (linespersample : nat)            (* line 134 *)
  | FailedSampleName (nameline : string)           (* line 146 *)
  | DuplicateSampleName (sample : string)          (* line 149 *)
  | InvalidRowSpecification (x line : string)      (* line 159 *)
  | RepeatedRow (x line : string).                 (* line 161 *)

Inductive script_exn : Type :=
  | IOError (e : ioerror)
  | AssertionError                                 (* line 143 *)
  | EOFError                                       (* raw_input at end of input *)
  | Raised (e : exn).                              (* the exceptions of [exn] *)

Definition sresult (A : Type) : Type := (script_exn + A)%type.

Definition sbind {A B : Type} (m : sresult A) (k : A → sresult B) : sresult B :=
  match m with
  | inl e => inl e
  | inr a => k a
  end.

Definition lift {A : Type} (m : result A) : sresult A :=
  match m with
  | inl e => inl (Raised e)
  | inr a => inr a
  end.

Notation "'let+' x ':=' m 'in' k" := (sbind m (λ x, k))
  (at level 10, x name, m at level 100, k at level 200,
   format "'[' 'let+'  x  ':='  m  'in' ']' '/' k").

(** *** String methods *)

(** The characters [str.isspace] and [str.strip] treat as whitespace:
    space, and tab, newline, vertical tab, form feed, carriage return. *)
Definition is_whitespace (c : Ascii.ascii) : bool :=
  let n := Ascii.nat_of_ascii c in
  (n =? 32)%nat || ((9 <=? n)%nat && (n <=? 13)%nat).

Definition newline : string := String (Ascii.ascii_of_nat 10) EmptyString.

(** The characters of a string, and back. *)
Fixpoint characters (s : string) : list Ascii.ascii :=
  match s with
  | EmptyString => []
  | String c s' => c :: characters s'
  end.

Fixpoint string_of_characters (l : list Ascii.ascii) : string :=
  match l with
  | [] => EmptyString
  | c :: l' => String c (string_of_characters l')
  end.

(** [s.isspace()]: non-empty and only whitespace. *)
Definition isspace (s : string) : bool :=
  match s with
  | EmptyString => false
  | String _ _ => forallb is_whitespace (characters s)
  end.

Fixpoint lstrip (s : string) : string :=
  match s with
  | EmptyString => EmptyString
  | String c s' => if is_whitespace c then lstrip s' else s
  end.

Definition string_reverse (s : string) : string :=
  string_of_characters (rev (characters s)).

Definition rstrip (s : string) : string :=
  string_reverse (lstrip (string_reverse s)).

(** [s.strip()]. *)
Definition strip (s : string) : string := rstrip (lstrip s).

(** [s.split(sep)] for a one-character separator. *)
Fixpoint split (sep : Ascii.ascii) (s : string) : list string :=
  match s with
  | EmptyString => [EmptyString]
  | String c s' =>
      if Ascii.eqb c sep then EmptyString :: split sep s'
      else match split sep s' with
           | [] => [String c EmptyString]
           | token :: tokens => String c token :: tokens
           end
  end.

(** [l.count(x)]. *)
Definition list_count (x : string) (l : list string) : nat :=
  length (filter (λ y, y = x) l).

(** [l[i:j]] for [0 <= i] and [0 <= j]. *)
Definition slice (l : list string) (i j : nat) : list string :=
  take (j - i) (drop i l).

(** *** [ParseInput] *)

(** Line 110: the lines that are neither comments nor blank; [line[0]] of
    an empty line raises [IndexError]. *)
Fixpoint effective_lines (filelines : list string) : sresult (list string) :=
  match filelines with
  | [] => inr []
  | line :: filelines' =>
      match line with
      | EmptyString => inl (Raised (IndexError 0))
      | String c _ =>
          let+ lines := effective_lines filelines' in
          if negb (Ascii.eqb c (Ascii.ascii_of_nat 35)) && negb (isspace line)
          then inr (line :: lines)
          else inr lines
      end
  end.

(** Lines 111, 116, 123 and 137: the patterns. *)
Definition line1pattern : string :=
  "^\s*VOLUME\s+(?P<volume>\d+\.{0,1}\d*)\s*" ++ newline ++ "$".
Definition line2pattern : string :=
  "^\s*DILUTION\s+(?P<dilution>\d+\.{0,1}\d*)\s*" ++ newline ++ "$".
Definition line3pattern : string :=
  "^\s*NREPLICATES\s+(?P<nreplicates>\d+)\s*" ++ newline ++ "$".
Definition namepattern : string :=
  "^\s*SAMPLE\s+(?P<name>.+)" ++ newline ++ "$".

(** Line 138. *)
Definition validrows : list string :=
  ["A"; "B"; "C"; "D"; "E"; "F"; "G"; "H"].

(** Lines 157-161: every token is a valid row and occurs once. *)
Fixpoint check_rows (line : string) (rows : list string) (xs : list string)
  : sresult unit :=
  match xs with
  | [] => inr tt
  | x :: xs' =>
      if decide (x ∈ validrows) then
        if decide (list_count x rows ≠ 1%nat)
        then inl (IOError (RepeatedRow x line))
        else check_rows line rows xs'
      else inl (IOError (InvalidRowSpecification x line))
  end.

(** Lines 153-162: the replicate described by one line, [na] or a
    comma-separated list of rows. *)
Definition parse_replicate (line : string) : sresult (list string) :=
  if decide (strip line = "na") then inr []
  else
    let rows := strip <$> split (Ascii.ascii_of_nat 44) line in
    let+ checked := check_rows line rows rows in
    inr rows.

(** Lines 152-162: the loop over the lines of one sample, appending to
    [sampledata[sample]]. *)
Fixpoint replicates_loop (samplelines : list string) (sample : string)
  (sampledata : gmap string (list (list string)))
  : sresult (gmap string (list (list string))) :=
  match samplelines with
  | [] => inr sampledata
  | line :: samplelines' =>
      let+ rows := parse_replicate line in
      let+ replicates := lift (getitem sampledata sample) in
      replicates_loop samplelines' sample
        (<[sample := (replicates ++ [rows])%list]> sampledata)
  end.

Section script.

(** [re.compile(pattern).search(subject)] and the named group of the match. *)
Variable re_search : string → string → string → option string.
(** [float(text)] and [int(text)] on the text of a group. *)
Variable py_float : string → Q.
Variable py_int : string → Z.

(** Lines 140-162: the loop over the samples; [isamples] is what is left of
    [range(nsamples)]. *)
Fixpoint samples_loop (isamples : list nat) (lines : list string)
  (nreplicates linespersample : nat)
  (sampledata : gmap string (list (list string))) (samplenames : list string)
  : sresult (gmap string (list (list string)) * list string) :=
  match isamples with
  | [] => inr (sampledata, samplenames)
  | isample :: isamples' =>
      let+ nameline := lift (list_getitem lines (isample * linespersample)) in
      let samplelines :=
        slice lines (isample * linespersample + 1)
          ((isample + 1) * linespersample) in
      if decide (length samplelines ≠ nreplicates) then inl AssertionError
      else
        match re_search namepattern "name" nameline with
        | None => inl (IOError (FailedSampleName nameline))
        | Some name =>
            let sample := strip name in
            if decide (is_Some (sampledata !! sample))
            then inl (IOError (DuplicateSampleName sample))
            else
              let+ sampledata' :=
                replicates_loop samplelines sample (<[sample := []]> sampledata) in
              samples_loop isamples' lines nreplicates linespersample
                sampledata' (samplenames ++ [sample])%list
        end
  end.

(** Lines 87-163; the result is [(samplenames, sampledata, volume, dilution)].
    After the check of line 128 the number of replicates is a [nat]. *)
Definition ParseInput (filelines : list string)
  : sresult (list string * gmap string (list (list string)) * Q * Q) :=
  let+ lines := effective_lines filelines in
  let+ line1 := lift (list_getitem lines 0) in
  match re_search line1pattern "volume" line1 with
  | None => inl (IOError FailedVolume)
  | Some volumetext =>
      let volume := py_float volumetext in
      let+ line2 := lift (list_getitem lines 1) in
      match re_search line2pattern "dilution" line2 with
      | None => inl (IOError FailedDilution)
      | Some dilutiontext =>
          let dilution := py_float dilutiontext in
          if Qle_bool dilution 1 then inl (IOError (DilutionNotAbove1 dilution))
          else
            let+ line3 := lift (list_getitem lines 2) in
            match re_search line3pattern "nreplicates" line3 with
            | None => inl (IOError FailedNreplicates)
            | Some nreplicatestext =>
                let nreplicates := py_int nreplicatestext in
                if decide (nreplicates < 2)%Z
                then inl (IOError (TooFewReplicates nreplicates))
                else
                  let nreplicates := Z.to_nat nreplicates in
                  let lines := drop 3 lines in
                  let linespersample := (nreplicates + 1)%nat in
                  if decide (length lines `mod` linespersample ≠ 0)%nat
                  then inl (IOError (BadLineCount linespersample))
                  else
                    let nsamples := (length lines `div` linespersample)%nat in
                    let+ parsed :=
                      samples_loop (seq 0 nsamples) lines nreplicates
                        linespersample ∅ [] in
                    inr (parsed.2, parsed.1, volume, dilution)
            end
      end
  end.

End script.

(** *** [AskOverwrite] (lines 166-189) *)

(** Lines 178-187: ask until the answer is Y, y, N or n; [answers] are the
    lines [raw_input] will return. *)
Fixpoint ask_loop (answers : list string) : sresult bool :=
  match answers with
  | [] => inl EOFError
  | answer :: answers' =>
      let ans := strip answer in
      if decide (ans ∈ ["Y"; "y"]) then inr true
      else if decide (ans ∈ ["N"; "n"]) then inr false
      else ask_loop answers'
  end.

(** [isfile] is [os.path.isfile(filename)]. *)
Definition AskOverwrite (isfile : bool) (answers : list string) : sresult bool :=
  if isfile then ask_loop answers else inr true.

(** *** The titers computed and reported by [main] (lines 209-214) *)

(** Lines 210-211; [items] is [sampledata.iteritems()], in the order the
    dictionary yields them. *)
Fixpoint titers_loop (items : list (string * list (list string)))
  (volume dilution : Q) (titers : gmap string R) : result (gmap string R) :=
  match items with
  | [] => ret titers
  | (sample, data) :: items' =>
      let* titer := Titer data volume dilution in
      titers_loop items' volume dilution (<[sample := titer]> titers)
  end.

(** Lines 213-214 (and 221-222): one entry per sample name, in input order. *)
Fixpoint report (samplenames : list string) (titers : gmap string R)
  : result (list (string * R)) :=
  match samplenames with
  | [] => ret []
  | sample :: samplenames' =>
      let* titer := getitem titers sample in
      let* entries := report samplenames' titers in
      ret ((sample, titer) :: entries)
  end.

Definition main_titers (items : list (string * list (list string)))
  (samplenames : list string) (volume dilution : Q)
  : result (list (string * R)) :=
  let* titers := titers_loop items volume dilution ∅ in
  report samplenames titers.

(** *** A stand-in for the library functions, to run the parser

    On lines of the form the patterns accept, [keyword_search] returns what
    the named group captures, up to surrounding whitespace; it is used in
    examples only. *)
Fixpoint strip_prefix (prefix s : string) : option string :=
  match prefix, s with
  | EmptyString, _ => Some s
  | String a prefix', String b s' =>
      if Ascii.eqb a b then strip_prefix prefix' s' else None
  | String _ _, EmptyString => None
  end.

Definition keyword_search (pattern group subject : string) : option string :=
  let keyword :=
    if decide (group = "volume") then "VOLUME"
    else if decide (group = "dilution") then "DILUTION"
    else if decide (group = "nreplicates") then "NREPLICATES"
    else "SAMPLE" in
  match strip_prefix keyword (lstrip subject) with
  | Some rest =>
      match rest with
      | String c _ => if is_whitespace c then Some (strip rest) else None
      | EmptyString => None
      end
  | None => None
  end.

(** The natural number written by a string of digits. *)
Definition digits_value (s : string) : Z :=
  fold_left (λ acc c, (10 * acc + (Z.of_nat (Ascii.nat_of_ascii c) - 48))%Z)
    (characters s) 0%Z.

(** The value of a decimal such as [0.05] or [10]. *)
Definition decimal_value (s : string) : Q :=
  match split (Ascii.ascii_of_nat 46) s with
  | [whole] => inject_Z (digits_value whole)
  | whole :: fraction :: _ =>
      inject_Z (digits_value whole)
      + inject_Z (digits_value fraction)
        / inject_Z (10 ^ Z.of_nat (String.length fraction))
  | [] => 0
  end.

Definition example_file : list string :=
  [ "# an example" ++ newline;
    "VOLUME 0.05" ++ newline;
    "DILUTION 10" ++ newline;
    newline;
    "NREPLICATES 3" ++ newline;
    "SAMPLE first" ++ newline;
    "A, B, C, D" ++ newline;
    "A,B,C" ++ newline;
    "A,B,C,D" ++ newline;
    "SAMPLE second" ++ newline;
    "na" ++ newline;
    "A" ++ newline;
    "A,B" ++ newline ].

(** * Verification *)

(** ** Counting: lines 39-44 *)

Lemma occurrences_app row ws1 ws2 :
  occurrences row (ws1 ++ ws2) = (occurrences row ws1 + occurrences row ws2)%Z.
Proof. induction ws1 as [|w ws1 IH]; simpl; [done | rewrite IH; lia]. Qed.

Lemma occurrences_not_elem row ws : row ∉ ws → occurrences row ws = 0%Z.
Proof.
  induction ws as [|w ws IH]; simpl; [done |].
  rewrite not_elem_of_cons. intros [Hne Hnin].
  rewrite decide_False by congruence. rewrite IH by done. done.
Qed.

Lemma occurrences_NoDup row ws :
  NoDup ws → occurrences row ws = if decide (row ∈ ws) then 1%Z else 0%Z.
Proof.
  induction 1 as [|w ws Hnin Hnd IH]; cbn [occurrences].
  - rewrite decide_False; [done | apply not_elem_of_nil].
  - destruct (decide (w = row)) as [->|Hne].
    + rewrite occurrences_not_elem by done.
      rewrite decide_True; [done | apply elem_of_cons; by left].
    + rewrite IH. destruct (decide (row ∈ ws)) as [Hin|Hin].
      * rewrite decide_True; [done | apply elem_of_cons; by right].
      * rewrite decide_False; [done |].
        rewrite not_elem_of_cons. split; congruence.
Qed.

Lemma getitem_Some {V : Type} (d : gmap string V) key v :
  d !! key = Some v → getitem d key = inr v.
Proof. unfold getitem. by intros ->. Qed.

Lemma counts_init_lookup row :
  counts_init !! row = if decide (row ∈ rows) then Some 0%Z else None.
Proof.
  case_decide as Hin.
  - unfold rows in Hin. repeat (apply elem_of_cons in Hin as [->|Hin]; [done |]).
    by apply elem_of_nil in Hin.
  - apply not_elem_of_list_to_map_1. intros Hin'. apply Hin.
    apply list_elem_of_fmap in Hin' as [[r z] [-> Hin']].
    apply list_elem_of_fmap in Hin' as [r' [[= -> ->] Hin']]. done.
Qed.

(** The inner loop adds to every count the occurrences of its row, on maps
    that have a count for every row. *)
Lemma count_wells_ok wells : ∀ m : gmap string Z,
  Forall (λ well, well ∈ rows) wells →
  (∀ row, row ∈ rows → is_Some (m !! row)) →
  ∃ m' : gmap string Z, count_wells wells m = inr m' ∧
    ∀ row, m' !! row = (λ c, (c + occurrences row wells)%Z) <$> (m !! row).
Proof.
  induction wells as [|well wells IH]; intros m Hall Hm; simpl.
  - exists m. split; [done |]. intros row. destruct (m !! row); simpl; [|done].
    f_equal. lia.
  - apply Forall_cons in Hall as [Hwell Hall].
    rewrite decide_True by done.
    destruct (Hm well Hwell) as [c Hc]. rewrite (getitem_Some _ _ _ Hc). simpl.
    destruct (IH (<[well := (c + 1)%Z]> m) Hall) as (m' & Hrun & Hm').
    { intros row Hrow. rewrite lookup_insert. case_decide; [by eexists | by apply Hm]. }
    exists m'. split; [done |]. intros row. rewrite Hm', lookup_insert.
    destruct (decide (well = row)) as [->|Hne]; simpl.
    + rewrite Hc. simpl. f_equal. lia.
    + destruct (m !! row); simpl; [f_equal; lia | done].
Qed.

Lemma count_replicates_ok infectedwells : ∀ m : gmap string Z,
  Forall (Forall (λ well, well ∈ rows)) infectedwells →
  (∀ row, row ∈ rows → is_Some (m !! row)) →
  ∃ m' : gmap string Z, count_replicates infectedwells m = inr m' ∧
    ∀ row, m' !! row = (λ c, (c + total infectedwells row)%Z) <$> (m !! row).
Proof.
  unfold total.
  induction infectedwells as [|wells iw IH]; intros m Hall Hm; simpl.
  - exists m. split; [done |]. intros row. destruct (m !! row); simpl; [|done].
    f_equal. lia.
  - apply Forall_cons in Hall as [Hwells Hall].
    destruct (count_wells_ok wells m Hwells Hm) as (m1 & -> & Hm1). simpl.
    destruct (IH m1 Hall) as (m' & Hrun & Hm').
    { intros row Hrow. rewrite Hm1. destruct (Hm row Hrow) as [c ->]. by eexists. }
    exists m'. split; [done |]. intros row.
    rewrite Hm', Hm1, occurrences_app.
    destruct (m !! row); simpl; [f_equal; lia | done].
Qed.

(** The first well outside A-H stops the counting. *)
Lemma count_wells_invalid wells : ∀ m : gmap string Z,
  (∀ row, row ∈ rows → is_Some (m !! row)) →
  Exists (λ well, well ∉ rows) wells →
  ∃ well, well ∈ wells ∧ (well ∉ rows) ∧
    count_wells wells m = inl (InvalidRowLabel well).
Proof.
  induction wells as [|well wells IH]; intros m Hm Hex; simpl.
  - by apply Exists_nil in Hex.
  - destruct (decide (well ∈ rows)) as [Hin|Hnin].
    + apply Exists_cons in Hex as [Hex|Hex]; [done |].
      destruct (Hm well Hin) as [c Hc]. rewrite (getitem_Some _ _ _ Hc). simpl.
      destruct (IH (<[well := (c + 1)%Z]> m)) as (w & Hw & Hnw & Hrun); [|done|].
      { intros row Hrow. rewrite lookup_insert. case_decide; [by eexists | by apply Hm]. }
      exists w. split_and!; [apply elem_of_cons; by right | done | done].
    + exists well. split_and!; [apply elem_of_cons; by left | done | done].
Qed.

Lemma count_wells_keeps_rows wells : ∀ m m' : gmap string Z,
  (∀ row, row ∈ rows → is_Some (m !! row)) →
  count_wells wells m = inr m' →
  ∀ row, row ∈ rows → is_Some (m' !! row).
Proof.
  induction wells as [|well wells IH]; intros m m' Hm; simpl.
  - by intros [= <-].
  - case_decide as Hin; [|done].
    destruct (Hm well Hin) as [c Hc]. rewrite (getitem_Some _ _ _ Hc). simpl.
    apply IH. intros row Hrow. rewrite lookup_insert.
    case_decide; [by eexists | by apply Hm].
Qed.

Lemma count_replicates_invalid infectedwells : ∀ m : gmap string Z,
  (∀ row, row ∈ rows → is_Some (m !! row)) →
  Exists (Exists (λ well, well ∉ rows)) infectedwells →
  ∃ well, well ∈ concat infectedwells ∧ (well ∉ rows) ∧
    count_replicates infectedwells m = inl (InvalidRowLabel well).
Proof.
  induction infectedwells as [|wells iw IH]; intros m Hm Hex; simpl.
  - by apply Exists_nil in Hex.
  - destruct (decide (Exists (λ well, well ∉ rows) wells)) as [Hbad|Hgood].
    + destruct (count_wells_invalid wells m Hm Hbad) as (w & Hw & Hnw & ->).
      exists w. split_and!; [apply elem_of_app; by left | done | done].
    + apply Exists_cons in Hex as [Hex|Hex]; [done |].
      apply not_Exists_Forall in Hgood; [|intros x; apply _].
      assert (Hall : Forall (λ well, well ∈ rows) wells).
      { eapply Forall_impl; [exact Hgood |]. simpl. intros x Hx.
        by destruct (decide (x ∈ rows)). }
      destruct (count_wells_ok wells m Hall Hm) as (m1 & Hrun1 & _).
      rewrite Hrun1. simpl.
      destruct (IH m1) as (w & Hw & Hnw & Hrun); [|done|].
      { by eapply count_wells_keeps_rows. }
      exists w. split_and!; [apply elem_of_app; by right | done | done].
Qed.

(** ** Cumulative totals: lines 45-57 *)

Section loops.
Variable c : string → Z.
Variable counts : gmap string Z.
Hypothesis counts_rows : ∀ row, row ∈ rows → counts !! row = Some (c row).

Lemma uninfected_loop_ok nreplicates rs : ∀ (n : Z) (m : gmap string Z),
  NoDup rs → rs ⊆ rows →
  ∃ m' : gmap string Z, uninfected_loop nreplicates counts rs n m = inr m' ∧
    ∀ row, m' !! row =
      if decide (row ∈ rs)
      then Some (n + sumZ (λ r, nreplicates - c r) (rows_upto row rs))%Z
      else m !! row.
Proof.
  induction rs as [|r rs IH]; intros n m Hnd Hsub.
  - exists m. split; [done |]. intros row.
    rewrite decide_False; [done | apply not_elem_of_nil].
  - apply NoDup_cons in Hnd as [Hnin Hnd]. simpl.
    assert (Hr : r ∈ rows) by (apply Hsub, elem_of_cons; by left).
    assert (Hsub' : rs ⊆ rows) by (intros x Hx; apply Hsub, elem_of_cons; by right).
    rewrite (getitem_Some _ _ _ (counts_rows r Hr)). simpl.
    rewrite (getitem_Some _ _ (n + nreplicates - c r)%Z) by apply lookup_insert_eq.
    simpl.
    destruct (IH (n + nreplicates - c r)%Z
                (<[r := (n + nreplicates - c r)%Z]> m) Hnd Hsub')
      as (m' & Hrun & Hm').
    exists m'. split; [done |]. intros row. rewrite Hm'.
    destruct (decide (r = row)) as [->|Hne].
    + rewrite decide_False by done. rewrite lookup_insert_eq.
      rewrite decide_True by (apply elem_of_cons; by left).
      simpl. f_equal. lia.
    + destruct (decide (row ∈ rs)) as [Hin|Hin'].
      * rewrite decide_True by (apply elem_of_cons; by right).
        simpl. f_equal. lia.
      * rewrite lookup_insert_ne by done.
        rewrite decide_False; [done |].
        rewrite not_elem_of_cons. split; congruence.
Qed.

Lemma infected_loop_ok rs : ∀ (n : Z) (m : gmap string Z),
  NoDup rs → rs ⊆ rows →
  ∃ m' : gmap string Z, infected_loop counts rs n m = inr m' ∧
    ∀ row, m' !! row =
      if decide (row ∈ rs)
      then Some (n + sumZ c (rows_upto row rs))%Z
      else m !! row.
Proof.
  induction rs as [|r rs IH]; intros n m Hnd Hsub.
  - exists m. split; [done |]. intros row.
    rewrite decide_False; [done | apply not_elem_of_nil].
  - apply NoDup_cons in Hnd as [Hnin Hnd]. simpl.
    assert (Hr : r ∈ rows) by (apply Hsub, elem_of_cons; by left).
    assert (Hsub' : rs ⊆ rows) by (intros x Hx; apply Hsub, elem_of_cons; by right).
    rewrite (getitem_Some _ _ _ (counts_rows r Hr)). simpl.
    rewrite (getitem_Some _ _ (n + c r)%Z) by apply lookup_insert_eq.
    simpl.
    destruct (IH (n + c r)%Z (<[r := (n + c r)%Z]> m) Hnd Hsub')
      as (m' & Hrun & Hm').
    exists m'. split; [done |]. intros row. rewrite Hm'.
    destruct (decide (r = row)) as [->|Hne].
    + rewrite decide_False by done. rewrite lookup_insert_eq.
      rewrite decide_True by (apply elem_of_cons; by left).
      simpl. f_equal. lia.
    + destruct (decide (row ∈ rs)) as [Hin|Hin'].
      * rewrite decide_True by (apply elem_of_cons; by right).
        simpl. f_equal. lia.
      * rewrite lookup_insert_ne by done.
        rewrite decide_False; [done |].
        rewrite not_elem_of_cons. split; congruence.
Qed.

End loops.

Lemma truediv_nonzero x y : ¬ (y == 0)%Q → truediv x y = inr (x / y)%Q.
Proof.
  intros Hy. unfold truediv.
  destruct (Qeq_bool y 0) eqn:E; [|done].
  by apply Qeq_bool_iff in E.
Qed.


Lemma inject_Z_nonzero z : z ≠ 0%Z → ¬ (inject_Z z == 0)%Q.
Proof. intros Hz H. apply Hz. by apply (inject_Z_injective z 0). Qed.

Lemma percent_loop_ok (I U : string → Z) (infected uninfected : gmap string Z) :
  (∀ row, row ∈ rows → infected !! row = Some (I row)) →
  (∀ row, row ∈ rows → uninfected !! row = Some (U row)) →
  ∀ (rs : list string) (pm : gmap string Q),
    rs ⊆ rows →
    (∀ row, row ∈ rs → (I row + U row)%Z ≠ 0%Z) →
    ∃ pm' : gmap string Q, percent_loop infected uninfected rs pm = inr pm' ∧
      ∀ row, pm' !! row =
        if decide (row ∈ rs)
        then Some (100 * inject_Z (I row) / inject_Z (I row + U row))%Q
        else pm !! row.
Proof.
  intros HI HU. induction rs as [|r rs IH]; intros pm Hsub Hnz.
  - exists pm. split; [done |]. intros row.
    rewrite decide_False; [done | apply not_elem_of_nil].
  - assert (Hr : r ∈ rows) by (apply Hsub, elem_of_cons; by left).
    assert (Hsub' : rs ⊆ rows) by (intros x Hx; apply Hsub, elem_of_cons; by right).
    simpl.
    rewrite (getitem_Some _ _ _ (HI r Hr)). simpl.
    rewrite (getitem_Some _ _ _ (HU r Hr)). simpl.
    rewrite truediv_nonzero
      by (apply inject_Z_nonzero, Hnz, elem_of_cons; by left).
    simpl.
    destruct (IH (<[r := (100 * inject_Z (I r) / inject_Z (I r + U r))%Q]> pm) Hsub')
      as (pm' & Hrun & Hpm').
    { intros row Hrow. apply Hnz, elem_of_cons. by right. }
    exists pm'. split; [done |]. intros row. rewrite Hpm'.
    destruct (decide (row ∈ rs)) as [Hin|Hin'].
    + rewrite decide_True by (apply elem_of_cons; by right). done.
    + destruct (decide (r = row)) as [->|Hne].
      * rewrite lookup_insert_eq.
        rewrite decide_True by (apply elem_of_cons; by left). done.
      * rewrite lookup_insert_ne by done.
        rewrite decide_False; [done |].
        rewrite not_elem_of_cons. split; congruence.
Qed.

Lemma NoDup_rows : NoDup rows.
Proof. by apply (bool_decide_unpack (NoDup rows)). Qed.

Lemma NoDup_reverserows : NoDup reverserows.
Proof. by apply (bool_decide_unpack (NoDup reverserows)). Qed.

Lemma reverserows_rows : reverserows ⊆ rows.
Proof. intros row. unfold reverserows. by rewrite elem_of_reverse. Qed.

Lemma elem_of_reverserows row : row ∈ rows → row ∈ reverserows.
Proof. unfold reverserows. by rewrite elem_of_reverse. Qed.

(** The tables of any assay with two or more replicates and labels in A-H,
    as long as no denominator vanishes. *)
Lemma Titer_tables_ok (infectedwells : list (list string)) :
  (2 ≤ length infectedwells)%nat →
  Forall (Forall (λ well, well ∈ rows)) infectedwells →
  (∀ row, row ∈ rows →
     (cum_infected (total infectedwells) row
      + cum_uninfected (Z.of_nat (length infectedwells)) (total infectedwells) row)%Z
     ≠ 0%Z) →
  ∃ t : tables, Titer_tables infectedwells = inr t ∧
    ∀ row, row ∈ rows →
      counts t !! row = Some (total infectedwells row) ∧
      uninfected t !! row =
        Some (cum_uninfected (Z.of_nat (length infectedwells)) (total infectedwells) row) ∧
      infected t !! row = Some (cum_infected (total infectedwells) row) ∧
      percentinfected t !! row =
        Some (percent (Z.of_nat (length infectedwells)) (total infectedwells) row).
Proof.
  intros Hlen Hlabels Hnz. unfold Titer_tables.
  rewrite decide_False by lia.
  destruct (count_replicates_ok infectedwells counts_init Hlabels)
    as (cm & -> & Hcm).
  { intros row Hrow. rewrite counts_init_lookup, decide_True by done. by eexists. }
  assert (Hcounts : ∀ row, row ∈ rows → cm !! row = Some (total infectedwells row)).
  { intros row Hrow. rewrite Hcm, counts_init_lookup, decide_True by done. done. }
  cbn [bind].
  destruct (uninfected_loop_ok (total infectedwells) cm Hcounts
              (Z.of_nat (length infectedwells)) rows 0%Z ∅ NoDup_rows)
    as (um & -> & Hum); [done |].
  cbn [bind].
  destruct (infected_loop_ok (total infectedwells) cm Hcounts
              reverserows 0%Z ∅ NoDup_reverserows reverserows_rows)
    as (im & -> & Him).
  cbn [bind].
  assert (HU : ∀ row, row ∈ rows →
            um !! row = Some (cum_uninfected (Z.of_nat (length infectedwells))
                                (total infectedwells) row)).
  { intros row Hrow. rewrite Hum, decide_True by done. done. }
  assert (HI : ∀ row, row ∈ rows →
            im !! row = Some (cum_infected (total infectedwells) row)).
  { intros row Hrow. rewrite Him, decide_True by by apply elem_of_reverserows. done. }
  destruct (percent_loop_ok _ _ im um HI HU rows ∅) as (pm & -> & Hpm);
    [done | done |].
  cbn [bind]. eexists. split; [done |]. cbn [counts uninfected infected percentinfected]. intros row Hrow.
  split_and!; [by apply Hcounts | by apply HU | by apply HI |].
  rewrite Hpm, decide_True by done. done.
Qed.

(** ** The 50% crossing: lines 58-73 *)

Lemma list_getitem_Some l i x : l !! i = Some x → list_getitem l i = inr x.
Proof. unfold list_getitem. by intros ->. Qed.

Lemma list_index_lookup l : ∀ k x,
  NoDup l → l !! k = Some x → list_index l x = inr k.
Proof.
  induction l as [|y l IH]; intros k x Hnd Hk; [done |].
  apply NoDup_cons in Hnd as [Hnin Hnd]. cbn [list_index].
  destruct k as [|k]; simpl in Hk.
  - injection Hk as ->. by rewrite decide_True.
  - rewrite decide_False.
    + by rewrite (IH k x Hnd Hk).
    + intros ->. apply Hnin. by eapply list_elem_of_lookup_2.
Qed.

Section crossing.
Variable P : string → Q.
Variable pm : gmap string Q.
Hypothesis pm_rows : ∀ row, row ∈ rows → pm !! row = Some (P row).

(** The scan finds the first row below 50%, if any, and answers with the
    row before it. *)
Lemma scan_rows_find (n : nat) : ∀ a : nat,
  (a + n)%nat = length rows →
  scan_rows pm (seq a n) =
    match list_find (λ row, (P row < 50)%Q) (drop a rows) with
    | None => inl NoDilutionBelow50
    | Some (j, _) =>
        if decide (a + j = 0)%nat then inl FirstDilutionBelow50
        else list_getitem rows (a + j - 1)
    end.
Proof.
  induction n as [|n IH]; intros a Ha.
  - rewrite Nat.add_0_r in Ha. subst a. by rewrite drop_all.
  - destruct (lookup_lt_is_Some_2 rows a) as [r Hr]; [lia |].
    rewrite (drop_S _ _ _ Hr). cbn [seq scan_rows list_find].
    rewrite (list_getitem_Some _ _ _ Hr). cbn [bind].
    rewrite (getitem_Some _ _ _ (pm_rows r (list_elem_of_lookup_2 _ _ _ Hr))).
    cbn [bind]. unfold decide at 2, Qlt_decision.
    destruct (Qlt_le_dec (P r) 50) as [Hlt|Hge].
    + rewrite Nat.add_0_r. done.
    + rewrite IH by lia.
      destruct (list_find (λ row, (P row < 50)%Q) (drop (S a) rows))
        as [[j x]|]; simpl; [|done].
      rewrite decide_False by lia. f_equal. lia.
Qed.

Lemma Titer_crossing_ok : Titer_crossing pm = find_crossing P.
Proof.
  unfold Titer_crossing, find_crossing.
  rewrite (scan_rows_find (length rows) 0) by done.
  rewrite drop_0.
  destruct (list_find (λ row, (P row < 50)%Q) rows) as [[[|k] next]|] eqn:Hfind;
    [done | | done].
  apply list_find_Some in Hfind as (Hnext & Hlt & Hbefore).
  rewrite decide_False by done.
  replace (0 + S k - 1)%nat with k by lia.
  assert (Hk : (S k < length rows)%nat) by by eapply lookup_lt_Some.
  destruct (lookup_lt_is_Some_2 rows k) as [above Habove]; [lia |].
  rewrite Habove, (list_getitem_Some _ _ _ Habove). cbn [bind].
  assert (Hin : above ∈ rows) by by eapply list_elem_of_lookup_2.
  assert (Hin' : next ∈ rows) by by eapply list_elem_of_lookup_2.
  rewrite (getitem_Some _ _ _ (pm_rows above Hin)). cbn [bind].
  assert (Hlast : rows !! (length rows - 1)%nat = Some "H") by done.
  rewrite (list_getitem_Some _ _ _ Hlast). cbn [bind].
  rewrite decide_True.
  2:{ intros ->. pose proof (NoDup_lookup _ _ _ _ NoDup_rows Habove Hlast).
      simpl in *. lia. }
  rewrite (list_index_lookup _ _ _ NoDup_rows Habove). cbn [bind].
  replace (k + 1)%nat with (S k) by lia.
  rewrite (list_getitem_Some _ _ _ Hnext). cbn [bind].
  rewrite (getitem_Some _ _ _ (pm_rows next Hin')). cbn [bind].
  assert (Hge : ¬ (P above < 50)%Q) by (eapply Hbefore; [done | lia]).
  rewrite truediv_nonzero; [done |].
  intros Hz. apply Hge. apply Qnot_le_lt. intros Hle. lra.
Qed.

End crossing.

(** ** Sums, and the specification's tables *)

Lemma sumZ_ext (f g : string → Z) rs :
  (∀ r, r ∈ rs → f r = g r) → sumZ f rs = sumZ g rs.
Proof.
  induction rs as [|r rs IH]; intros Hfg; simpl; [done |].
  rewrite Hfg by (apply elem_of_cons; by left).
  rewrite IH; [done |]. intros x Hx. apply Hfg, elem_of_cons. by right.
Qed.

Lemma sumZ_nonneg (f : string → Z) rs :
  (∀ r, r ∈ rs → (0 ≤ f r)%Z) → (0 ≤ sumZ f rs)%Z.
Proof.
  induction rs as [|r rs IH]; intros Hf; simpl; [done |].
  assert (0 ≤ f r)%Z by (apply Hf, elem_of_cons; by left).
  assert (0 ≤ sumZ f rs)%Z; [|lia].
  apply IH. intros x Hx. apply Hf, elem_of_cons. by right.
Qed.

Lemma sumZ_zero (f : string → Z) rs :
  (∀ r, r ∈ rs → f r = 0%Z) → sumZ f rs = 0%Z.
Proof.
  induction rs as [|r rs IH]; intros Hf; simpl; [done |].
  rewrite Hf by (apply elem_of_cons; by left).
  rewrite IH; [done |]. intros x Hx. apply Hf, elem_of_cons. by right.
Qed.

Lemma sumZ_elem_le (f : string → Z) rs x :
  (∀ r, r ∈ rs → (0 ≤ f r)%Z) → x ∈ rs → (f x ≤ sumZ f rs)%Z.
Proof.
  induction rs as [|r rs IH]; intros Hf Hx; simpl.
  - by apply elem_of_nil in Hx.
  - assert (0 ≤ f r)%Z by (apply Hf, elem_of_cons; by left).
    assert (Hrs : ∀ y, y ∈ rs → (0 ≤ f y)%Z)
      by (intros y Hy; apply Hf, elem_of_cons; by right).
    apply elem_of_cons in Hx as [->|Hx].
    + pose proof (sumZ_nonneg f rs Hrs). lia.
    + pose proof (IH Hrs Hx). lia.
Qed.

Lemma rows_upto_lookup rs : ∀ i row,
  NoDup rs → rs !! i = Some row → rows_upto row rs = take (S i) rs.
Proof.
  induction rs as [|r rs IH]; intros i row Hnd Hi; [done |].
  apply NoDup_cons in Hnd as [Hnin Hnd]. cbn [rows_upto].
  destruct i as [|i]; simpl in Hi.
  - injection Hi as ->. by rewrite decide_True.
  - rewrite decide_False.
    + by rewrite (IH i row Hnd Hi).
    + intros ->. apply Hnin. by eapply list_elem_of_lookup_2.
Qed.

Lemma rows_from_lookup rs : ∀ i row,
  NoDup rs → rs !! i = Some row → rows_from row rs = drop i rs.
Proof.
  induction rs as [|r rs IH]; intros i row Hnd Hi; [done |].
  apply NoDup_cons in Hnd as [Hnin Hnd]. cbn [rows_from].
  destruct i as [|i]; simpl in Hi.
  - injection Hi as ->. by rewrite decide_True.
  - rewrite decide_False.
    + by rewrite (IH i row Hnd Hi).
    + intros ->. apply Hnin. by eapply list_elem_of_lookup_2.
Qed.

Lemma elem_of_rows_upto row rs : row ∈ rs → row ∈ rows_upto row rs.
Proof.
  induction rs as [|r rs IH]; intros Hin; [done |]. cbn [rows_upto].
  destruct (decide (r = row)) as [->|Hne].
  - apply list_elem_of_singleton. done.
  - apply elem_of_cons in Hin as [->|Hin]; [done |].
    apply elem_of_cons. right. by apply IH.
Qed.

Lemma rows_upto_subseteq row rs : rows_upto row rs ⊆ rs.
Proof.
  induction rs as [|r rs IH]; [done |]. cbn [rows_upto].
  intros x Hx. destruct (decide (r = row)) as [->|Hne].
  - apply list_elem_of_singleton in Hx as ->. apply elem_of_cons. by left.
  - apply elem_of_cons in Hx as [->|Hx]; apply elem_of_cons; [by left |].
    right. by apply IH.
Qed.

(** Going up from H to [row] visits the rows from [row] down to H. *)
Lemma rows_upto_reverserows row :
  row ∈ rows → rows_upto row reverserows = reverse (rows_from row rows).
Proof.
  intros Hin. unfold rows in Hin.
  repeat (apply elem_of_cons in Hin as [->|Hin]; [done |]).
  by apply elem_of_nil in Hin.
Qed.

Lemma Spec_infected_cum assay row :
  row ∈ rows → Spec.infected assay row = cum_infected (Spec.count assay) row.
Proof.
  intros Hin. unfold Spec.infected, cum_infected.
  by rewrite rows_upto_reverserows.
Qed.


(** On duplicate-free replicates the code counts what the specification
    counts. *)
Lemma total_count assay row :
  Forall NoDup assay → total assay row = Spec.count assay row.
Proof.
  unfold total, Spec.count. induction 1 as [|wells assay Hnd _ IH]; [done |].
  cbn [concat]. rewrite occurrences_app, IH, (occurrences_NoDup _ _ Hnd).
  rewrite filter_cons. case_decide; simpl; lia.
Qed.

Lemma count_bounds assay row :
  (0 ≤ Spec.count assay row ≤ Spec.nreplicates assay)%Z.
Proof.
  unfold Spec.count, Spec.nreplicates.
  pose proof (length_filter (λ replicate : list string, row ∈ replicate) assay).
  lia.
Qed.

Lemma valid_assay_NoDup assay : valid_assay assay → Forall NoDup assay.
Proof. intros [_ H]. eapply Forall_impl; [exact H |]. by intros ws [? _]. Qed.

Lemma valid_assay_labels assay :
  valid_assay assay → Forall (Forall (λ well, well ∈ rows)) assay.
Proof. intros [_ H]. eapply Forall_impl; [exact H |]. by intros ws [_ ?]. Qed.

Lemma Spec_infected_bounds assay row :
  row ∈ rows →
  (Spec.count assay row ≤ Spec.infected assay row)%Z.
Proof.
  intros Hin. unfold Spec.infected. apply sumZ_elem_le.
  - intros r _. apply count_bounds.
  - rewrite <- rows_upto_reverserows by done.
    apply elem_of_rows_upto. by apply elem_of_reverserows.
Qed.

Lemma Spec_uninfected_bounds assay row :
  row ∈ rows →
  (Spec.nreplicates assay - Spec.count assay row ≤ Spec.uninfected assay row)%Z.
Proof.
  intros Hin. unfold Spec.uninfected.
  apply (sumZ_elem_le (λ r, (Spec.nreplicates assay - Spec.count assay r)%Z)).
  - intros r _. pose proof (count_bounds assay r). lia.
  - by apply elem_of_rows_upto.
Qed.

Lemma Spec_uninfected_nonneg assay row : (0 ≤ Spec.uninfected assay row)%Z.
Proof.
  unfold Spec.uninfected. apply sumZ_nonneg.
  intros r _. pose proof (count_bounds assay r). lia.
Qed.

Lemma Spec_infected_nonneg assay row : (0 ≤ Spec.infected assay row)%Z.
Proof.
  unfold Spec.infected. apply sumZ_nonneg. intros r _. apply count_bounds.
Qed.

Lemma Spec_denominator_pos assay row :
  row ∈ rows →
  (Spec.nreplicates assay
   ≤ Spec.infected assay row + Spec.uninfected assay row)%Z.
Proof.
  intros Hin.
  pose proof (Spec_infected_bounds assay row Hin).
  pose proof (Spec_uninfected_bounds assay row Hin). lia.
Qed.

(** The tables of a valid assay are the tables of the specification. *)
Lemma Titer_tables_valid (assay : list (list string)) :
  valid_assay assay →
  ∃ t : tables, Titer_tables assay = inr t ∧
    ∀ row, row ∈ rows →
      counts t !! row = Some (Spec.count assay row) ∧
      uninfected t !! row = Some (Spec.uninfected assay row) ∧
      infected t !! row = Some (Spec.infected assay row) ∧
      percentinfected t !! row = Some (Spec.percentInfected assay row).
Proof.
  intros Hvalid. pose proof (valid_assay_NoDup _ Hvalid) as Hnd.
  assert (HU : ∀ row, cum_uninfected (Z.of_nat (length assay)) (total assay) row
                      = Spec.uninfected assay row).
  { intros row. unfold cum_uninfected, Spec.uninfected. apply sumZ_ext.
    intros r _. by rewrite total_count. }
  assert (HI : ∀ row, row ∈ rows →
                      cum_infected (total assay) row = Spec.infected assay row).
  { intros row Hrow. rewrite Spec_infected_cum by done.
    unfold cum_infected. apply sumZ_ext. intros r _. by rewrite total_count. }
  destruct (Titer_tables_ok assay) as (t & Hrun & Ht).
  - by destruct Hvalid.
  - by apply valid_assay_labels.
  - intros row Hrow. rewrite HU, HI by done.
    pose proof (Spec_denominator_pos assay row Hrow).
    destruct Hvalid as [Hlen _]. unfold Spec.nreplicates in *. lia.
  - exists t. split; [done |]. intros row Hrow.
    destruct (Ht row Hrow) as (Hc & Hu & Hi & Hp).
    rewrite Hc, Hu, Hi, Hp. unfold percent, Spec.percentInfected.
    rewrite HU, HI, total_count by done. done.
Qed.

(** ** [Titer] on valid assays *)

Lemma Titer_valid (assay : list (list string)) (volume dilution : Q) :
  valid_assay assay →
  Titer assay volume dilution =
    bind (find_crossing (Spec.percentInfected assay)) (Titer_value volume dilution).
Proof.
  intros Hvalid. unfold Titer.
  destruct (Titer_tables_valid assay Hvalid) as (t & -> & Ht). cbn [bind].
  rewrite (Titer_crossing_ok (Spec.percentInfected assay)); [done |].
  intros row Hrow. by destruct (Ht row Hrow) as (_ & _ & _ & ?).
Qed.

Lemma float_max_ge_1 : (1 <= Q2R float_max)%R.
Proof.
  replace 1%R with (Q2R 1) by (unfold Q2R; simpl; lra).
  apply Qle_Rle. unfold float_max. rewrite <- (Zle_Qle 1). by vm_compute.
Qed.

Lemma float_range_inr (r : R) :
  (Rabs r <= Q2R float_max)%R → float_range r = inr r.
Proof.
  intros Hr. unfold float_range.
  destruct (Rlt_dec (Q2R float_max) (Rabs r)); [lra | done].
Qed.

Lemma float_range_overflow (r : R) :
  (Q2R float_max < Rabs r)%R → float_range r = inl OverflowError.
Proof.
  intros Hr. unfold float_range.
  destruct (Rlt_dec (Q2R float_max) (Rabs r)); [done | lra].
Qed.

Lemma Rabs_Rpower (x y : R) : Rabs (Rpower x y) = Rpower x y.
Proof. apply Rabs_right. left. apply exp_pos. Qed.

Lemma float_pow_pos x y :
  (0 < x)%Q → float_pow x y = float_range (Rpower (Q2R x) (Q2R y)).
Proof.
  intros Hx. unfold float_pow.
  destruct (Qeq_bool y 0) eqn:Ey.
  - apply Qeq_bool_iff in Ey. rewrite (Qeq_eqR _ _ Ey).
    rewrite RMicromega.Q2R_0, Rpower_O.
    + rewrite float_range_inr; [done |].
      rewrite Rabs_R1. apply float_max_ge_1.
    + replace 0%R with (Q2R 0) by apply RMicromega.Q2R_0. by apply Qlt_Rlt.
  - destruct (Qeq_bool x 0) eqn:Ex.
    + apply Qeq_bool_iff in Ex. rewrite Ex in Hx. by apply Qlt_irrefl in Hx.
    + destruct (Qlt_le_dec x 0) as [Hneg|_]; [|done].
      exfalso. apply (Qlt_irrefl 0). by etrans.
Qed.

(** Line 74 when the power is within the float range. *)
Lemma Titer_value_pos volume dilution c :
  (0 < volume)%Q → (0 < dilution)%Q →
  (Rpower (Q2R dilution)
     (Q2R (inject_Z (Z.of_nat (startdilution c)) + index c))
   <= Q2R float_max)%R →
  Titer_value volume dilution c =
    inr (Rpower (Q2R dilution)
           (Q2R (inject_Z (Z.of_nat (startdilution c)) + index c))
         / Q2R volume)%R.
Proof.
  intros Hv Hd Hrange. unfold Titer_value. rewrite float_pow_pos by done.
  rewrite float_range_inr by by rewrite Rabs_Rpower. cbn [bind].
  destruct (Qeq_bool volume 0) eqn:Ev; [|done].
  apply Qeq_bool_iff in Ev. rewrite Ev in Hv. by apply Qlt_irrefl in Hv.
Qed.

(** Line 74 when the power is out of the float range. *)
Lemma Titer_value_overflow volume dilution c :
  (0 < dilution)%Q →
  (Q2R float_max
   < Rpower (Q2R dilution)
       (Q2R (inject_Z (Z.of_nat (startdilution c)) + index c)))%R →
  Titer_value volume dilution c = inl OverflowError.
Proof.
  intros Hd Hrange. unfold Titer_value. rewrite float_pow_pos by done.
  by rewrite float_range_overflow by by rewrite Rabs_Rpower.
Qed.

(** Line 74 with a volume equal to 0, the power being within range. *)
Lemma Titer_value_zero_volume volume dilution c :
  (volume == 0)%Q → (0 < dilution)%Q →
  (Rpower (Q2R dilution)
     (Q2R (inject_Z (Z.of_nat (startdilution c)) + index c))
   <= Q2R float_max)%R →
  Titer_value volume dilution c = inl ZeroDivisionError.
Proof.
  intros Hv Hd Hrange. unfold Titer_value. rewrite float_pow_pos by done.
  rewrite float_range_inr by by rewrite Rabs_Rpower. cbn [bind].
  apply Qeq_bool_iff in Hv. by rewrite Hv.
Qed.

(** What line 74 returns, when it returns. *)
Lemma Titer_value_inr volume dilution c titer :
  (0 < dilution)%Q →
  Titer_value volume dilution c = inr titer →
  titer = (Rpower (Q2R dilution)
             (Q2R (inject_Z (Z.of_nat (startdilution c)) + index c))
           / Q2R volume)%R ∧
  (Rpower (Q2R dilution)
     (Q2R (inject_Z (Z.of_nat (startdilution c)) + index c))
   <= Q2R float_max)%R.
Proof.
  intros Hd. unfold Titer_value. rewrite float_pow_pos by done.
  unfold float_range. rewrite Rabs_Rpower.
  destruct (Rlt_dec _ _) as [|Hrange]; [done |]. cbn [bind].
  destruct (Qeq_bool volume 0); [done |].
  intros [= <-]. split; [done | lra].
Qed.

Lemma Q2R_pow_nat (d : Q) (n : nat) : Q2R (d ^ Z.of_nat n) = (Q2R d ^ n)%R.
Proof.
  rewrite RMicromega.Q2RpowerRZ by (right; lia).
  by rewrite <- pow_powerRZ.
Qed.

Lemma Q2R_gt_1 (d : Q) : (1 < d)%Q → (1 < Q2R d)%R.
Proof.
  intros H. replace 1%R with (Q2R 1) by (unfold Q2R; simpl; lra).
  by apply Qlt_Rlt.
Qed.

(** A power of a dilution stays within the float range when a larger
    integral power does, and leaves it when a smaller one does. *)
Lemma Rpower_in_range (d : Q) (e : R) (n : nat) :
  (1 < d)%Q → (e <= INR n)%R → (d ^ Z.of_nat n <= float_max)%Q →
  (Rpower (Q2R d) e <= Q2R float_max)%R.
Proof.
  intros Hd He Hmax. apply Q2R_gt_1 in Hd.
  apply Qle_Rle in Hmax. rewrite Q2R_pow_nat in Hmax.
  eapply Rle_trans; [|exact Hmax].
  rewrite <- Rpower_pow by lra. apply Rle_Rpower; lra.
Qed.

Lemma Rpower_out_of_range (d : Q) (e : R) (n : nat) :
  (1 < d)%Q → (INR n <= e)%R → (float_max < d ^ Z.of_nat n)%Q →
  (Q2R float_max < Rpower (Q2R d) e)%R.
Proof.
  intros Hd He Hmax. apply Q2R_gt_1 in Hd.
  apply Qlt_Rlt in Hmax. rewrite Q2R_pow_nat in Hmax.
  eapply Rlt_le_trans; [exact Hmax |].
  rewrite <- Rpower_pow by lra. apply Rle_Rpower; lra.
Qed.

(** ** Percentages *)

Lemma percentInfected_bounds assay row :
  valid_assay assay → row ∈ rows →
  (0 <= Spec.percentInfected assay row <= 100)%Q.
Proof.
  intros [Hlen _] Hrow. unfold Spec.percentInfected.
  pose proof (Spec_infected_nonneg assay row) as Hi.
  pose proof (Spec_uninfected_nonneg assay row) as Hu.
  pose proof (Spec_denominator_pos assay row Hrow) as Hd.
  unfold Spec.nreplicates in Hd.
  assert (Hpos : (0 < inject_Z (Spec.infected assay row + Spec.uninfected assay row))%Q).
  { change 0%Q with (inject_Z 0). rewrite <- Zlt_Qlt. lia. }
  rewrite Zle_Qle in Hi, Hu.
  rewrite inject_Z_plus in *. change (inject_Z 0) with 0%Q in *.
  split.
  - apply Qle_shift_div_l; [done | lra].
  - apply Qle_shift_div_r; [done | lra].
Qed.

Lemma percentInfected_none assay row :
  Spec.infected assay row = 0%Z → (Spec.percentInfected assay row == 0)%Q.
Proof.
  intros Hi. unfold Spec.percentInfected. rewrite Hi.
  unfold Qdiv. change (100 * inject_Z 0)%Q with 0%Q. apply Qmult_0_l.
Qed.

Lemma percentInfected_all assay row :
  Spec.uninfected assay row = 0%Z → (0 < Spec.infected assay row)%Z →
  (Spec.percentInfected assay row == 100)%Q.
Proof.
  intros Hu Hi. unfold Spec.percentInfected. rewrite Hu, Z.add_0_r.
  field. apply inject_Z_nonzero. lia.
Qed.

(** ** The claims about errors *)

(** C6: with fewer than two replicate observations (none, or a single one),
    whatever the volume and the dilution, [Titer] fails with
    [InsufficientReplicates] and returns no titer. *)
Theorem Titer_insufficient_replicates
  (infectedwells : list (list string)) (volume dilution : Q) :
  (length infectedwells < 2)%nat →
  Titer infectedwells volume dilution
  = inl (InsufficientReplicates (length infectedwells)).
Proof.
  intros Hlen. unfold Titer, Titer_tables. by rewrite decide_True.
Qed.

Lemma Titer_insufficient_replicates_witness :
  (length [["A"; "B"]] < 2)%nat ∧
  Titer [["A"; "B"]] (1 # 20) 10 = inl (InsufficientReplicates 1).
Proof.
  split; [simpl; lia |].
  apply (Titer_insufficient_replicates [["A"; "B"]] (1 # 20) 10). simpl. lia.
Defined.

(** C7: with two or more replicate observations, one of which contains a
    label outside A-H, [Titer] fails with [InvalidRowLabel] (carrying such a
    label of the input) and returns no titer. *)
Theorem Titer_invalid_row_label
  (infectedwells : list (list string)) (volume dilution : Q) :
  (2 ≤ length infectedwells)%nat →
  Exists (Exists (λ well, well ∉ rows)) infectedwells →
  ∃ well, well ∈ concat infectedwells ∧ (well ∉ rows) ∧
    Titer infectedwells volume dilution = inl (InvalidRowLabel well).
Proof.
  intros Hlen Hbad.
  destruct (count_replicates_invalid infectedwells counts_init)
    as (well & Hin & Hnin & Hrun); [|done|].
  { intros row Hrow. rewrite counts_init_lookup, decide_True by done. by eexists. }
  exists well. split_and!; [done | done |].
  unfold Titer, Titer_tables. rewrite decide_False by lia. by rewrite Hrun.
Qed.

Lemma Titer_invalid_row_label_witness :
  ∃ well, well ∈ concat [["A"; "Z"]; ["A"]] ∧ (well ∉ rows) ∧
    Titer [["A"; "Z"]; ["A"]] (1 # 20) 10 = inl (InvalidRowLabel well).
Proof.
  apply (Titer_invalid_row_label [["A"; "Z"]; ["A"]] (1 # 20) 10).
  - simpl. lia.
  - apply Exists_cons_hd, Exists_cons_tl, Exists_cons_hd.
    by apply (bool_decide_unpack ("Z" ∉ rows)).
Defined.

Lemma count_no_infection assay row :
  Forall (λ replicate, replicate = []) assay → Spec.count assay row = 0%Z.
Proof.
  unfold Spec.count. induction 1 as [|replicate assay -> _ IH]; [done |].
  rewrite filter_cons_False; [done | apply not_elem_of_nil].
Qed.

(** C4: when there are at least two replicates and every one of them is
    empty, [Titer] fails with [FirstDilutionBelow50]. *)
Theorem Titer_no_infection
  (infectedwells : list (list string)) (volume dilution : Q) :
  (2 ≤ length infectedwells)%nat →
  Forall (λ replicate, replicate = []) infectedwells →
  Titer infectedwells volume dilution = inl FirstDilutionBelow50.
Proof.
  intros Hlen Hempty.
  assert (Hvalid : valid_assay infectedwells).
  { split; [done |]. eapply Forall_impl; [exact Hempty |].
    intros replicate ->. split; [apply NoDup_nil_2 | apply Forall_nil_2]. }
  rewrite Titer_valid by done.
  assert (HA : (Spec.percentInfected infectedwells "A" < 50)%Q).
  { rewrite percentInfected_none; [done |].
    unfold Spec.infected. apply sumZ_zero. intros r _.
    by apply count_no_infection. }
  unfold find_crossing, rows. cbn [list_find].
  by rewrite decide_True.
Qed.

Lemma Titer_no_infection_witness :
  Titer [[]; []; []] (1 # 20) 10 = inl FirstDilutionBelow50.
Proof.
  apply (Titer_no_infection [[]; []; []] (1 # 20) 10).
  - simpl. lia.
  - repeat constructor.
Defined.

Lemma count_full_infection assay row :
  Forall (λ replicate, ∀ r, r ∈ rows → r ∈ replicate) assay →
  row ∈ rows → Spec.count assay row = Spec.nreplicates assay.
Proof.
  unfold Spec.count, Spec.nreplicates. intros Hfull Hrow. f_equal.
  induction Hfull as [|replicate assay Hrep _ IH]; [done |].
  rewrite filter_cons_True by by apply Hrep. simpl. by rewrite IH.
Qed.

(** C5: when there are at least two replicates and every one of them (a
    duplicate-free set of rows A-H) reports infection in every row A-H,
    [Titer] fails with [NoDilutionBelow50]. *)
Theorem Titer_full_infection
  (infectedwells : list (list string)) (volume dilution : Q) :
  valid_assay infectedwells →
  Forall (λ replicate, ∀ r, r ∈ rows → r ∈ replicate) infectedwells →
  Titer infectedwells volume dilution = inl NoDilutionBelow50.
Proof.
  intros Hvalid Hfull. rewrite Titer_valid by done.
  assert (Hnone : list_find
            (λ row, (Spec.percentInfected infectedwells row < 50)%Q) rows = None).
  { apply list_find_None, Forall_forall. intros row Hrow.
    rewrite percentInfected_all; [done | |].
    - unfold Spec.uninfected. apply sumZ_zero. intros r Hr.
      rewrite count_full_infection; [lia | done |].
      by eapply rows_upto_subseteq.
    - pose proof (Spec_infected_bounds infectedwells row Hrow) as Hle.
      rewrite count_full_infection in Hle by done.
      destruct Hvalid as [Hlen _]. unfold Spec.nreplicates in Hle. lia. }
  unfold find_crossing. by rewrite Hnone.
Qed.

Lemma Titer_full_infection_witness :
  Titer [rows; reverserows] (1 # 20) 10 = inl NoDilutionBelow50.
Proof.
  apply (Titer_full_infection [rows; reverserows] (1 # 20) 10).
  - by apply (bool_decide_unpack (valid_assay [rows; reverserows])).
  - apply Forall_cons. split; [done |].
    apply Forall_cons. split; [|apply Forall_nil_2].
    intros r Hr. by apply elem_of_reverserows.
Defined.

(** ** The claims about the tables *)

(** C9: on a valid assay the tables are built without error and, for every
    row, the denominator [infected[row] + uninfected[row]] of the percentage
    is strictly positive, so that the division of line 57 does not raise
    [ZeroDivisionError]. *)
Theorem Titer_denominator_positive (infectedwells : list (list string)) :
  valid_assay infectedwells →
  ∃ t : tables, Titer_tables infectedwells = inr t ∧
    ∀ row, row ∈ rows →
      ∃ i u : Z, infected t !! row = Some i ∧ uninfected t !! row = Some u ∧
        (0 < i + u)%Z ∧
        truediv (100 * inject_Z i) (inject_Z (i + u))
        = inr (100 * inject_Z i / inject_Z (i + u))%Q ∧
        percentinfected t !! row = Some (100 * inject_Z i / inject_Z (i + u))%Q.
Proof.
  intros Hvalid.
  destruct (Titer_tables_valid infectedwells Hvalid) as (t & Hrun & Ht).
  exists t. split; [done |]. intros row Hrow.
  destruct (Ht row Hrow) as (_ & Hu & Hi & Hp).
  exists (Spec.infected infectedwells row), (Spec.uninfected infectedwells row).
  pose proof (Spec_denominator_pos infectedwells row Hrow) as Hd.
  destruct Hvalid as [Hlen _]. unfold Spec.nreplicates in Hd.
  split_and!; [done | done | lia | | done].
  apply truediv_nonzero, inject_Z_nonzero. lia.
Qed.

Lemma Titer_denominator_positive_witness :
  valid_assay example_assay ∧
  ∃ t : tables, Titer_tables example_assay = inr t ∧
    ∀ row, row ∈ rows →
      ∃ i u : Z, infected t !! row = Some i ∧ uninfected t !! row = Some u ∧
        (0 < i + u)%Z ∧
        truediv (100 * inject_Z i) (inject_Z (i + u))
        = inr (100 * inject_Z i / inject_Z (i + u))%Q ∧
        percentinfected t !! row = Some (100 * inject_Z i / inject_Z (i + u))%Q.
Proof.
  assert (H : valid_assay example_assay)
    by by apply (bool_decide_unpack (valid_assay example_assay)).
  split; [exact H | exact (Titer_denominator_positive example_assay H)].
Defined.

(** Validity is needed for C9: a row repeated within a replicate can drive a
    denominator to zero (here at row B: infected 0, uninfected (2-4)+2). *)
Example Titer_repeated_row :
  Titer [["A"; "A"; "A"; "A"]; []] (1 # 20) 10 = inl ZeroDivisionError.
Proof. by vm_compute. Qed.

(** C8: on a valid assay the computed [percentinfected[row]] lies between 0
    and 100 for every row A-H. *)
Theorem Titer_percent_bounds (infectedwells : list (list string)) :
  valid_assay infectedwells →
  ∃ t : tables, Titer_tables infectedwells = inr t ∧
    ∀ row, row ∈ rows →
      ∃ p : Q, percentinfected t !! row = Some p ∧ (0 <= p <= 100)%Q.
Proof.
  intros Hvalid.
  destruct (Titer_tables_valid infectedwells Hvalid) as (t & Hrun & Ht).
  exists t. split; [done |]. intros row Hrow.
  destruct (Ht row Hrow) as (_ & _ & _ & Hp).
  exists (Spec.percentInfected infectedwells row).
  split; [done |]. by apply percentInfected_bounds.
Qed.

Lemma Titer_percent_bounds_witness :
  valid_assay example_assay ∧
  ∃ t : tables, Titer_tables example_assay = inr t ∧
    ∀ row, row ∈ rows →
      ∃ p : Q, percentinfected t !! row = Some p ∧ (0 <= p <= 100)%Q.
Proof.
  assert (H : valid_assay example_assay)
    by by apply (bool_decide_unpack (valid_assay example_assay)).
  split; [exact H | exact (Titer_percent_bounds example_assay H)].
Defined.

(** ** The claims about the crossing *)

(** What [find_crossing] returns, when it returns. *)
Lemma find_crossing_inr (P : string → Q) (c : crossing) :
  find_crossing P = inr c →
  ∃ (k : nat) (above next : string),
    rows !! k = Some above ∧ rows !! S k = Some next ∧
    (P next < 50)%Q ∧
    (∀ j row, rows !! j = Some row → (j ≤ k)%nat → (50 <= P row)%Q) ∧
    c = Crossing above (P above) (P next)
          ((P above - 50) / (P above - P next))%Q k.
Proof.
  unfold find_crossing.
  destruct (list_find (λ row, (P row < 50)%Q) rows) as [[[|k] next]|] eqn:Hfind;
    [done | | done].
  destruct (rows !! k) as [above|] eqn:Habove; [|done].
  intros [= <-].
  apply list_find_Some in Hfind as (Hnext & Hlt & Hbefore).
  exists k, above, next. split_and!; [done | done | done | | done].
  intros j row Hj Hle. apply Qnot_lt_le. eapply Hbefore; [done | lia].
Qed.

Lemma find_crossing_Some (P : string → Q) (k : nat) (above next : string) :
  rows !! k = Some above → rows !! S k = Some next →
  (P next < 50)%Q →
  (∀ j row, rows !! j = Some row → (j ≤ k)%nat → (50 <= P row)%Q) →
  find_crossing P =
    inr (Crossing above (P above) (P next)
           ((P above - 50) / (P above - P next))%Q k).
Proof.
  intros Habove Hnext Hlt Hbefore. unfold find_crossing.
  assert (Hfind : list_find (λ row, (P row < 50)%Q) rows = Some (S k, next)).
  { apply list_find_Some. split_and!; [done | done |].
    intros j row Hj Hjk. apply Qle_not_lt. eapply Hbefore; [done | lia]. }
  by rewrite Hfind, Habove.
Qed.

Lemma interpolation_bounds (pabove pbelow : Q) :
  (50 <= pabove)%Q → (pbelow < 50)%Q →
  (0 < pabove - pbelow)%Q ∧
  (0 <= (pabove - 50) / (pabove - pbelow))%Q ∧
  ((pabove - 50) / (pabove - pbelow) < 1)%Q.
Proof.
  intros Ha Hb. assert (Hpos : (0 < pabove - pbelow)%Q) by lra.
  split_and!; [done | |].
  - apply Qle_shift_div_l; [done | lra].
  - apply Qlt_shift_div_r; [done | lra].
Qed.

(** C10: on a valid assay on which [Titer] returns, the selected row above
    50% is one of A-G and never the last row H (the [else] branch of line 71
    is not taken: the percentage below is read from the table at the next
    row), the percentage above is at least 50 and the one below is less than
    50, so that the interpolation denominator is positive and the index lies
    in [0, 1). *)
Theorem Titer_crossing_safe
  (infectedwells : list (list string)) (volume dilution : Q) (titer : R) :
  valid_assay infectedwells →
  Titer infectedwells volume dilution = inr titer →
  ∃ (t : tables) (c : crossing),
    Titer_tables infectedwells = inr t ∧
    Titer_crossing (percentinfected t) = inr c ∧
    Titer_value volume dilution c = inr titer ∧
    rowabove50 c ∈ ["A"; "B"; "C"; "D"; "E"; "F"; "G"] ∧
    rowabove50 c ≠ "H" ∧
    percentinfected t !! rowabove50 c = Some (percentrowabove50 c) ∧
    (∃ next, rows !! S (startdilution c) = Some next ∧
       percentinfected t !! next = Some (percentrowbelow50 c)) ∧
    (50 <= percentrowabove50 c)%Q ∧
    (percentrowbelow50 c < 50)%Q ∧
    (0 < percentrowabove50 c - percentrowbelow50 c)%Q ∧
    (0 <= index c)%Q ∧ (index c < 1)%Q.
Proof.
  intros Hvalid Hrun. unfold Titer in Hrun.
  destruct (Titer_tables_valid infectedwells Hvalid) as (t & Ht & Hrows).
  rewrite Ht in Hrun. cbn [bind] in Hrun.
  assert (Hpm : ∀ row, row ∈ rows →
            percentinfected t !! row = Some (Spec.percentInfected infectedwells row)).
  { intros row Hrow. by destruct (Hrows row Hrow) as (_ & _ & _ & ?). }
  destruct (Titer_crossing (percentinfected t)) as [e|c] eqn:Hc; [done |].
  cbn [bind] in Hrun. exists t, c. split_and!; [done | done | done | ..];
    rewrite (Titer_crossing_ok _ _ Hpm) in Hc;
    apply find_crossing_inr in Hc
      as (k & above & next & Habove & Hnext & Hlt & Hbefore & ->);
    cbn [rowabove50 percentrowabove50 percentrowbelow50 index startdilution];
    assert (Hge : (50 <= Spec.percentInfected infectedwells above)%Q)
      by (by eapply Hbefore);
    assert (Hk : (S k < length rows)%nat) by (by eapply lookup_lt_Some);
    simpl in Hk.
  - change ["A"; "B"; "C"; "D"; "E"; "F"; "G"] with (take 7 rows).
    apply elem_of_take. exists k. split; [done | lia].
  - intros ->.
    assert (Hlast : rows !! 7%nat = Some "H") by done.
    pose proof (NoDup_lookup _ _ _ _ NoDup_rows Habove Hlast). lia.
  - apply Hpm. by eapply list_elem_of_lookup_2.
  - exists next. split; [done |]. apply Hpm. by eapply list_elem_of_lookup_2.
  - done.
  - done.
  - by apply interpolation_bounds.
  - by apply interpolation_bounds.
  - by apply interpolation_bounds.
Qed.

(** Running [Titer]: once the tables and the crossing have been evaluated,
    the result is the power of line 74. *)
Lemma Titer_run (infectedwells : list (list string)) (volume dilution : Q)
  (c : crossing) :
  (0 < volume)%Q → (1 < dilution)%Q →
  bind (Titer_tables infectedwells) (λ t, Titer_crossing (percentinfected t))
  = inr c →
  Qle_bool (inject_Z (Z.of_nat (startdilution c)) + index c) 7 = true →
  Qle_bool (dilution ^ 7) float_max = true →
  Titer infectedwells volume dilution =
    inr (Rpower (Q2R dilution)
           (Q2R (inject_Z (Z.of_nat (startdilution c)) + index c))
         / Q2R volume)%R.
Proof.
  intros Hv Hd Hc He Hmax. unfold Titer.
  destruct (Titer_tables infectedwells) as [e|t]; [done |].
  cbn [bind] in *. rewrite Hc. cbn [bind].
  apply Titer_value_pos; [done | lra |].
  apply Qle_bool_iff in He, Hmax.
  apply (Rpower_in_range dilution _ 7); [done | | done].
  apply Qle_Rle in He. replace (Q2R 7) with (INR 7) in He; [done |].
  unfold Q2R. simpl. lra.
Qed.

(** Running [Titer] into the overflow of line 74. *)
Lemma Titer_run_overflow (infectedwells : list (list string))
  (volume dilution : Q) (c : crossing) (n : nat) :
  (1 < dilution)%Q →
  bind (Titer_tables infectedwells) (λ t, Titer_crossing (percentinfected t))
  = inr c →
  Qle_bool (inject_Z (Z.of_nat n))
    (inject_Z (Z.of_nat (startdilution c)) + index c) = true →
  Qle_bool (dilution ^ Z.of_nat n) float_max = false →
  Titer infectedwells volume dilution = inl OverflowError.
Proof.
  intros Hd Hc He Hmax. unfold Titer.
  destruct (Titer_tables infectedwells) as [e|t]; [done |].
  cbn [bind] in *. rewrite Hc. cbn [bind].
  apply Titer_value_overflow; [lra |].
  apply Qle_bool_iff in He.
  apply (Rpower_out_of_range dilution _ n); [done | |].
  - apply Qle_Rle in He. rewrite INR_IZR_INZ.
    replace (Q2R (inject_Z (Z.of_nat n))) with (IZR (Z.of_nat n)) in He;
      [done |].
    unfold Q2R, inject_Z. simpl. lra.
  - apply Qnot_le_lt. intros Hle. apply Qle_bool_iff in Hle. congruence.
Qed.

Lemma example_assay_crossing :
  bind (Titer_tables example_assay) (λ t, Titer_crossing (percentinfected t))
  = inr (Crossing "D" (200 # 3) (0 # 4) (600 # 2400) 3).
Proof. vm_compute. reflexivity. Qed.

Lemma Titer_crossing_safe_witness :
  ∃ (t : tables) (c : crossing),
    Titer_tables example_assay = inr t ∧
    Titer_crossing (percentinfected t) = inr c ∧
    Titer_value (1 # 20) 10 c
    = inr (Rpower (Q2R 10) (Q2R (inject_Z 3 + (600 # 2400))) / Q2R (1 # 20))%R ∧
    rowabove50 c ∈ ["A"; "B"; "C"; "D"; "E"; "F"; "G"] ∧
    rowabove50 c ≠ "H" ∧
    percentinfected t !! rowabove50 c = Some (percentrowabove50 c) ∧
    (∃ next, rows !! S (startdilution c) = Some next ∧
       percentinfected t !! next = Some (percentrowbelow50 c)) ∧
    (50 <= percentrowabove50 c)%Q ∧
    (percentrowbelow50 c < 50)%Q ∧
    (0 < percentrowabove50 c - percentrowbelow50 c)%Q ∧
    (0 <= index c)%Q ∧ (index c < 1)%Q.
Proof.
  apply (Titer_crossing_safe example_assay (1 # 20) 10).
  - by apply (bool_decide_unpack (valid_assay example_assay)).
  - by apply (Titer_run example_assay (1 # 20) 10 _ eq_refl eq_refl
                example_assay_crossing eq_refl eq_refl).
Defined.

(** ** The refinement claim *)

Lemma position_lookup (k : nat) (row : string) :
  rows !! k = Some row → Spec.position row = k.
Proof.
  intros Hk. unfold Spec.position.
  assert (Hfind : list_find (λ r, r = row) rows = Some (k, row)).
  { apply list_find_Some. split_and!; [done | done |].
    intros j y Hj Hjk ->.
    pose proof (NoDup_lookup _ _ _ _ NoDup_rows Hk Hj). lia. }
  by rewrite Hfind.
Qed.

Lemma Q2R_start_index (k : nat) (i : Q) :
  Q2R (inject_Z (Z.of_nat k) + i) = (INR k + Q2R i)%R.
Proof.
  rewrite Q2R_plus. f_equal. rewrite INR_IZR_INZ.
  unfold Q2R, inject_Z. simpl. lra.
Qed.

(** C1: on a valid assay (at least two replicates, each a duplicate-free
    subset of A-H) with volume > 0 and dilution > 1, whenever [Titer]
    returns, there is a row above 50% in the sense of the specification
    (the row before the first row, scanning A to H, whose percentInfected is
    below 50, with count, infected, uninfected and percentInfected as the
    specification defines them) and the result is
    dilution ^ (startDilution + index) / volume for that row, the power
    being within the float range.  Conversely, when the specification has a
    row above 50% and that power is within the float range, [Titer] returns
    that titer. *)
Theorem Titer_formula
  (infectedwells : list (list string)) (volume dilution : Q) (titer : R) :
  valid_assay infectedwells → (0 < volume)%Q → (1 < dilution)%Q →
  Titer infectedwells volume dilution = inr titer ↔
  ∃ rowAbove, Spec.rowAbove50 infectedwells = Some rowAbove ∧
    titer = Spec.titer infectedwells volume dilution rowAbove ∧
    (Rpower (Q2R dilution)
       (INR (Spec.startDilution rowAbove)
        + Q2R (Spec.index infectedwells rowAbove))
     <= Q2R float_max)%R.
Proof.
  intros Hvalid Hv Hd. assert (Hd' : (0 < dilution)%Q) by lra.
  rewrite Titer_valid by done.
  unfold find_crossing, Spec.rowAbove50, Spec.firstBelow50.
  destruct (list_find (λ row, (Spec.percentInfected infectedwells row < 50)%Q) rows)
    as [[[|k] next]|] eqn:Hfind.
  - cbn [bind]. split; [done | by intros (? & ? & _)].
  - apply list_find_Some in Hfind as (Hnext & _ & _).
    destruct (rows !! k) as [above|] eqn:Habove.
    + cbn [bind].
      assert (Hexp : (INR (Spec.startDilution above)
                      + Q2R (Spec.index infectedwells above))%R
                = Q2R (inject_Z (Z.of_nat k)
                       + (Spec.percentInfected infectedwells above - 50)
                         / (Spec.percentInfected infectedwells above
                            - Spec.percentInfected infectedwells next))).
      { rewrite Q2R_start_index.
        unfold Spec.index, Spec.startDilution, Spec.pAbove, Spec.pBelow.
        by rewrite (position_lookup k above Habove), Hnext. }
      assert (Hspec : Spec.titer infectedwells volume dilution above
                = (Rpower (Q2R dilution)
                     (Q2R (inject_Z (Z.of_nat k)
                           + (Spec.percentInfected infectedwells above - 50)
                             / (Spec.percentInfected infectedwells above
                                - Spec.percentInfected infectedwells next)))
                   / Q2R volume)%R).
      { unfold Spec.titer. by rewrite Hexp. }
      split.
      * intros [Htiter Hrange]%Titer_value_inr; [|done].
        cbn [startdilution index] in Htiter, Hrange.
        exists above. by rewrite Hspec, Hexp.
      * intros (r & [= <-] & -> & Hrange). rewrite Hexp in Hrange.
        rewrite Titer_value_pos by done. by rewrite Hspec.
    + cbn [bind]. split; [done | by intros (? & ? & _)].
  - cbn [bind]. split; [done | by intros (? & ? & _)].
Qed.

Lemma Titer_formula_witness :
  ∃ rowAbove, Spec.rowAbove50 example_assay = Some rowAbove ∧
    (Rpower (Q2R 10) (Q2R (inject_Z 3 + (600 # 2400))) / Q2R (1 # 20))%R
    = Spec.titer example_assay (1 # 20) 10 rowAbove ∧
    (Rpower (Q2R 10)
       (INR (Spec.startDilution rowAbove)
        + Q2R (Spec.index example_assay rowAbove))
     <= Q2R float_max)%R.
Proof.
  apply (Titer_formula example_assay (1 # 20) 10).
  - by apply (bool_decide_unpack (valid_assay example_assay)).
  - reflexivity.
  - reflexivity.
  - by apply (Titer_run example_assay (1 # 20) 10 _ eq_refl eq_refl
                example_assay_crossing eq_refl eq_refl).
Defined.

(** ** The monotone pattern *)

(** When every replicate reports the same set of rows, a row is counted in
    all the replicates or in none. *)
Lemma count_same_rows (infectedrows : list string) assay row :
  Forall (λ replicate, ∀ r, r ∈ replicate ↔ r ∈ infectedrows) assay →
  Spec.count assay row
  = if decide (row ∈ infectedrows) then Spec.nreplicates assay else 0%Z.
Proof.
  unfold Spec.count, Spec.nreplicates.
  induction 1 as [|replicate l Hin _ IH]; [by case_decide |].
  rewrite filter_cons. destruct (decide (row ∈ infectedrows)) as [H|H].
  - rewrite decide_True by by apply Hin. cbn [length]. lia.
  - rewrite decide_False by (intros H'; by apply H, Hin). done.
Qed.

Section pattern.
Variable assay : list (list string).
Variable k : nat.
Hypothesis enough : (2 ≤ length assay)%nat.
Hypothesis pattern :
  Forall (λ replicate,
            NoDup replicate ∧ ∀ row, row ∈ replicate ↔ row ∈ take (S k) rows)
         assay.

Lemma pattern_valid : valid_assay assay.
Proof.
  split; [done |]. eapply Forall_impl; [exact pattern |].
  intros replicate [Hnd Hin]. split; [done |].
  apply Forall_forall. intros row Hrow.
  apply Hin in Hrow. by eapply subseteq_take.
Qed.

Lemma pattern_count row :
  Spec.count assay row
  = if decide (row ∈ take (S k) rows) then Spec.nreplicates assay else 0%Z.
Proof.
  apply count_same_rows. eapply Forall_impl; [exact pattern |].
  by intros replicate [_ ?].
Qed.

(** Down to row [k] every well is infected. *)
Lemma pattern_above (j : nat) (row : string) :
  rows !! j = Some row → (j ≤ k)%nat →
  (Spec.percentInfected assay row == 100)%Q.
Proof.
  intros Hj Hjk.
  assert (Hrow : row ∈ rows) by by eapply list_elem_of_lookup_2.
  apply percentInfected_all.
  - unfold Spec.uninfected.
    rewrite (rows_upto_lookup _ _ _ NoDup_rows Hj).
    apply sumZ_zero. intros r Hr. rewrite pattern_count, decide_True; [lia |].
    apply elem_of_take in Hr as (i & Hi & Hlt).
    apply elem_of_take. exists i. split; [done | lia].
  - pose proof (Spec_infected_bounds assay row Hrow) as Hle.
    rewrite pattern_count, decide_True in Hle.
    + unfold Spec.nreplicates in Hle. lia.
    + apply elem_of_take. exists j. split; [done | lia].
Qed.

(** Below row [k] no well is infected. *)
Lemma pattern_below (j : nat) (row : string) :
  rows !! j = Some row → (k < j)%nat →
  (Spec.percentInfected assay row == 0)%Q.
Proof.
  intros Hj Hjk. apply percentInfected_none.
  unfold Spec.infected. rewrite (rows_from_lookup _ _ _ NoDup_rows Hj).
  apply sumZ_zero. intros r Hr. rewrite pattern_count, decide_False; [done |].
  rewrite elem_of_reverse in Hr. apply list_elem_of_lookup in Hr as [i Hi].
  rewrite lookup_drop in Hi.
  intros (i' & Hi' & Hlt)%elem_of_take.
  pose proof (NoDup_lookup _ _ _ _ NoDup_rows Hi Hi'). lia.
Qed.

End pattern.

(** C2, amended: with two or more replicates, volume > 0, dilution > 1 and
    a zero-based row position k between 0 and 6, if every replicate reports
    infection in exactly the rows A..k, then the crossing lies between row k
    and row k+1, with 100% above, 0% below, index 0.5 and start dilution k;
    [Titer] returns dilution ^ (k + 0.5) / volume when that power is within
    the float range, and raises [OverflowError] when it is not. *)
Theorem Titer_monotone_pattern
  (infectedwells : list (list string)) (volume dilution : Q) (k : nat) :
  (2 ≤ length infectedwells)%nat →
  (0 < volume)%Q → (1 < dilution)%Q → (k ≤ 6)%nat →
  Forall (λ replicate,
            NoDup replicate ∧ ∀ row, row ∈ replicate ↔ row ∈ take (S k) rows)
         infectedwells →
  ((Rpower (Q2R dilution) (INR k + 1 / 2) <= Q2R float_max)%R →
   Titer infectedwells volume dilution
   = inr (Rpower (Q2R dilution) (INR k + 1 / 2) / Q2R volume)%R) ∧
  ((Q2R float_max < Rpower (Q2R dilution) (INR k + 1 / 2))%R →
   Titer infectedwells volume dilution = inl OverflowError) ∧
  ∃ (t : tables) (c : crossing),
    Titer_tables infectedwells = inr t ∧
    Titer_crossing (percentinfected t) = inr c ∧
    rows !! k = Some (rowabove50 c) ∧
    startdilution c = k ∧
    (percentrowabove50 c == 100)%Q ∧
    (percentrowbelow50 c == 0)%Q ∧
    (index c == 1 # 2)%Q.
Proof.
  intros Hlen Hv Hd Hk Hpat.
  pose proof (pattern_valid _ k Hlen Hpat) as Hvalid.
  destruct (lookup_lt_is_Some_2 rows k) as [above Habove]; [simpl; lia |].
  destruct (lookup_lt_is_Some_2 rows (S k)) as [next Hnext]; [simpl; lia |].
  pose proof (pattern_above _ k Hlen Hpat k above Habove (Nat.le_refl k)) as HA.
  assert (HB : (Spec.percentInfected infectedwells next == 0)%Q)
    by exact (pattern_below _ k Hlen Hpat (S k) next Hnext (Nat.lt_succ_diag_r k)).
  assert (Hcross : find_crossing (Spec.percentInfected infectedwells) =
            inr (Crossing above (Spec.percentInfected infectedwells above)
                   (Spec.percentInfected infectedwells next)
                   ((Spec.percentInfected infectedwells above - 50)
                    / (Spec.percentInfected infectedwells above
                       - Spec.percentInfected infectedwells next))%Q k)).
  { apply find_crossing_Some; [done | done | by rewrite HB |].
    intros j row Hj Hjk. by rewrite (pattern_above _ k Hlen Hpat j row). }
  assert (Hindex : ((Spec.percentInfected infectedwells above - 50)
                    / (Spec.percentInfected infectedwells above
                       - Spec.percentInfected infectedwells next) == 1 # 2)%Q)
    by by rewrite HA, HB.
  assert (Hexp : Q2R (inject_Z (Z.of_nat k)
                      + (Spec.percentInfected infectedwells above - 50)
                        / (Spec.percentInfected infectedwells above
                           - Spec.percentInfected infectedwells next))
                 = (INR k + 1 / 2)%R).
  { rewrite Q2R_start_index, (Qeq_eqR _ _ Hindex).
    by replace (Q2R (1 # 2)) with (1 / 2)%R by (unfold Q2R; simpl; lra). }
  split_and!.
  - intros Hrange. rewrite Titer_valid, Hcross by done. cbn [bind].
    rewrite Titer_value_pos; cbn [startdilution index];
      [by rewrite Hexp | done | lra | by rewrite Hexp].
  - intros Hrange. rewrite Titer_valid, Hcross by done. cbn [bind].
    apply Titer_value_overflow; [lra |].
    cbn [startdilution index]. by rewrite Hexp.
  - destruct (Titer_tables_valid infectedwells Hvalid) as (t & Ht & Hrows).
    exists t. eexists. split; [done |]. split.
    + rewrite (Titer_crossing_ok (Spec.percentInfected infectedwells)); [done |].
      intros row Hrow. by destruct (Hrows row Hrow) as (_ & _ & _ & ?).
    + by cbn [rowabove50 startdilution percentrowabove50 percentrowbelow50 index].
Qed.

Lemma Titer_monotone_pattern_witness :
  Titer [["A"; "B"; "C"]; ["C"; "A"; "B"]] (1 # 20) 10
  = inr (Rpower (Q2R 10) (INR 2 + 1 / 2) / Q2R (1 # 20))%R ∧
  ∃ (t : tables) (c : crossing),
    Titer_tables [["A"; "B"; "C"]; ["C"; "A"; "B"]] = inr t ∧
    Titer_crossing (percentinfected t) = inr c ∧
    rows !! 2%nat = Some (rowabove50 c) ∧
    startdilution c = 2%nat ∧
    (percentrowabove50 c == 100)%Q ∧
    (percentrowbelow50 c == 0)%Q ∧
    (index c == 1 # 2)%Q.
Proof.
  destruct (Titer_monotone_pattern
              [["A"; "B"; "C"]; ["C"; "A"; "B"]] (1 # 20) 10 2)
    as (Hreturns & _ & Hcrossing).
  - simpl. lia.
  - reflexivity.
  - reflexivity.
  - lia.
  - repeat (apply Forall_cons; split); [| |apply Forall_nil_2].
    + split; [by apply (bool_decide_unpack (NoDup ["A"; "B"; "C"])) |].
      intros row. reflexivity.
    + split; [by apply (bool_decide_unpack (NoDup ["C"; "A"; "B"])) |].
      intros row. change (take 3 rows) with ["A"; "B"; "C"].
      rewrite !elem_of_cons. tauto.
  - split; [|exact Hcrossing]. apply Hreturns.
    apply (Rpower_in_range 10 _ 3); [reflexivity | simpl; lra |].
    apply Qle_bool_iff. reflexivity.
Defined.

Lemma pattern_assay_crossing :
  bind (Titer_tables [["A"; "B"; "C"]; ["A"; "B"; "C"]])
    (λ t, Titer_crossing (percentinfected t))
  = inr (Crossing "C" (200 # 2) (0 # 2) (400 # 800) 2).
Proof. vm_compute. reflexivity. Qed.

(** The claim C2 as it is stated fails for a large dilution: with every
    replicate at rows A..C (k = 2), volume 1 and dilution 10^200, the power
    dilution ^ 2.5 is out of the float range and [Titer] does not return. *)
Lemma Titer_monotone_pattern_overflows :
  (2 ≤ length [["A"; "B"; "C"]; ["A"; "B"; "C"]])%nat ∧
  (0 < 1)%Q ∧ (1 < inject_Z (10 ^ 200))%Q ∧ (2 ≤ 6)%nat ∧
  Forall (λ replicate,
            NoDup replicate ∧ ∀ row, row ∈ replicate ↔ row ∈ take 3 rows)
         [["A"; "B"; "C"]; ["A"; "B"; "C"]] ∧
  Titer [["A"; "B"; "C"]; ["A"; "B"; "C"]] 1 (inject_Z (10 ^ 200))
  = inl OverflowError ∧
  Titer [["A"; "B"; "C"]; ["A"; "B"; "C"]] 1 (inject_Z (10 ^ 200))
  ≠ inr (Rpower (Q2R (inject_Z (10 ^ 200))) (INR 2 + 1 / 2) / Q2R 1)%R.
Proof.
  assert (Hrun : Titer [["A"; "B"; "C"]; ["A"; "B"; "C"]] 1 (inject_Z (10 ^ 200))
                 = inl OverflowError).
  { apply (Titer_run_overflow _ 1 (inject_Z (10 ^ 200)) _ 2 eq_refl
             pattern_assay_crossing eq_refl).
    by vm_compute. }
  split_and!; [simpl; lia | done | done | lia | | exact Hrun | by rewrite Hrun].
  repeat (apply Forall_cons; split); [| |apply Forall_nil_2];
    (split; [by apply (bool_decide_unpack (NoDup ["A"; "B"; "C"])) |]);
    intros row; reflexivity.
Qed.

(** ** The example of the docstring *)

Lemma example_assay_tables :
  ∃ t : tables, Titer_tables example_assay = inr t ∧
    (counts t !! "A" = Some 3%Z ∧ counts t !! "B" = Some 3%Z ∧
     counts t !! "C" = Some 3%Z ∧ counts t !! "D" = Some 2%Z ∧
     counts t !! "E" = Some 0%Z ∧ counts t !! "F" = Some 0%Z ∧
     counts t !! "G" = Some 0%Z ∧ counts t !! "H" = Some 0%Z) ∧
    percentinfected t !! "C" = Some (500 # 5) ∧
    percentinfected t !! "D" = Some (200 # 3) ∧
    percentinfected t !! "E" = Some (0 # 4) ∧
    Titer_crossing (percentinfected t)
    = inr (Crossing "D" (200 # 3) (0 # 4) (600 # 2400) 3).
Proof.
  exists (Tables
            (list_to_map [("A", 3); ("B", 3); ("C", 3); ("D", 2);
                          ("E", 0); ("F", 0); ("G", 0); ("H", 0)]%Z)
            (list_to_map [("A", 0); ("B", 0); ("C", 0); ("D", 1);
                          ("E", 4); ("F", 7); ("G", 10); ("H", 13)]%Z)
            (list_to_map [("A", 11); ("B", 8); ("C", 5); ("D", 2);
                          ("E", 0); ("F", 0); ("G", 0); ("H", 0)]%Z)
            (list_to_map [("A", 1100 # 11); ("B", 800 # 8); ("C", 500 # 5);
                          ("D", 200 # 3); ("E", 0 # 4); ("F", 0 # 7);
                          ("G", 0 # 10); ("H", 0 # 13)])).
  split; [vm_compute; reflexivity |].
  cbn [counts percentinfected]. split_and!; by vm_compute.
Qed.

(** The claim C3 as it is stated fails on its own input: row C is at 100%,
    but row D is at 200/3 %, which is not below 50. *)
Lemma example_assay_row_D_not_below_50 :
  ¬ ∃ (t : tables) (pC pD : Q),
      Titer_tables example_assay = inr t ∧
      percentinfected t !! "C" = Some pC ∧ (pC == 100)%Q ∧
      percentinfected t !! "D" = Some pD ∧ (pD < 50)%Q.
Proof.
  intros (t & pC & pD & Ht & _ & _ & HD & Hlt).
  destruct example_assay_tables as (t' & Ht' & _ & _ & HD' & _).
  rewrite Ht in Ht'. injection Ht' as <-.
  rewrite HD in HD'. injection HD' as ->. done.
Qed.

(** C3, amended: for [[A,B,C,D],[A,B,C],[A,B,C,D]], volume 0.05 and
    dilution 10, the counts are A=3, B=3, C=3, D=2 and 0 for E-H; the
    percentages are 100 at row C, 200/3 (not below 50) at row D and 0 at row
    E, so that the 50% crossing lies between row D and row E; and [Titer]
    returns the titer of the algorithm of the specification for the row D
    above, which is 10 ^ 3.25 / 0.05. *)
Theorem Titer_example_assay :
  ∃ (t : tables) (c : crossing),
    Titer_tables example_assay = inr t ∧
    (counts t !! "A" = Some 3%Z ∧ counts t !! "B" = Some 3%Z ∧
     counts t !! "C" = Some 3%Z ∧ counts t !! "D" = Some 2%Z ∧
     counts t !! "E" = Some 0%Z ∧ counts t !! "F" = Some 0%Z ∧
     counts t !! "G" = Some 0%Z ∧ counts t !! "H" = Some 0%Z) ∧
    (∃ pC pD pE : Q,
       percentinfected t !! "C" = Some pC ∧ (pC == 100)%Q ∧
       percentinfected t !! "D" = Some pD ∧ (pD == 200 # 3)%Q ∧ (50 <= pD)%Q ∧
       percentinfected t !! "E" = Some pE ∧ (pE == 0)%Q ∧ (pE < 50)%Q) ∧
    Titer_crossing (percentinfected t) = inr c ∧
    rowabove50 c = "D" ∧ startdilution c = 3%nat ∧ (index c == 1 # 4)%Q ∧
    Spec.rowAbove50 example_assay = Some "D" ∧
    Titer example_assay (1 # 20) 10
    = inr (Spec.titer example_assay (1 # 20) 10 "D") ∧
    Spec.titer example_assay (1 # 20) 10 "D"
    = (Rpower 10 (3 + 1 / 4) / (1 / 20))%R.
Proof.
  destruct example_assay_tables as (t & Ht & Hcounts & HC & HD & HE & Hc).
  assert (Hspec : Spec.titer example_assay (1 # 20) 10 "D"
                  = (Rpower (Q2R 10) (Q2R (inject_Z 3 + (600 # 2400)))
                     / Q2R (1 # 20))%R).
  { unfold Spec.titer.
    replace (Spec.startDilution "D") with 3%nat by by vm_compute.
    replace (Spec.index example_assay "D") with (600 # 2400) by by vm_compute.
    by rewrite (Q2R_start_index 3). }
  exists t, (Crossing "D" (200 # 3) (0 # 4) (600 # 2400) 3).
  do 2 (split; [done |]).
  split; [exists (500 # 5), (200 # 3), (0 # 4); by split_and! |].
  do 4 (split; [done |]).
  split; [by vm_compute |]. split.
  - rewrite Hspec.
    by apply (Titer_run example_assay (1 # 20) 10 _ eq_refl eq_refl
                example_assay_crossing eq_refl eq_refl).
  - rewrite Hspec. rewrite Q2R_plus. unfold Q2R. simpl.
    replace (10 * / 1)%R with 10%R by lra.
    replace (3 * / 1 + 600 * / 2400)%R with (3 + 1 / 4)%R by lra.
    by replace (1 * / 20)%R with (1 / 20)%R by lra.
Qed.

(** * Further properties of [Titer] *)

(** ** The percentages never increase down the plate *)

Lemma sumZ_app (f : string → Z) rs1 rs2 :
  sumZ f (rs1 ++ rs2) = (sumZ f rs1 + sumZ f rs2)%Z.
Proof. induction rs1 as [|r rs1 IH]; simpl; [done | rewrite IH; lia]. Qed.

Lemma sumZ_reverse (f : string → Z) rs : sumZ f (reverse rs) = sumZ f rs.
Proof.
  induction rs as [|r rs IH]; [done |].
  rewrite reverse_cons, sumZ_app, IH. simpl. lia.
Qed.

Lemma Spec_infected_antitone assay (i j : nat) (ri rj : string) :
  (i ≤ j)%nat → rows !! i = Some ri → rows !! j = Some rj →
  (Spec.infected assay rj ≤ Spec.infected assay ri)%Z.
Proof.
  intros Hij Hi Hj. unfold Spec.infected.
  rewrite (rows_from_lookup _ _ _ NoDup_rows Hi).
  rewrite (rows_from_lookup _ _ _ NoDup_rows Hj).
  rewrite !sumZ_reverse.
  assert (Hsplit : drop i rows = (take (j - i) (drop i rows) ++ drop j rows)%list).
  { rewrite <- (take_drop (j - i) (drop i rows)) at 1.
    rewrite drop_drop. do 2 f_equal. lia. }
  rewrite Hsplit, sumZ_app.
  pose proof (sumZ_nonneg (Spec.count assay) (take (j - i) (drop i rows))
                (λ r _, proj1 (count_bounds assay r))). lia.
Qed.

Lemma Spec_uninfected_monotone assay (i j : nat) (ri rj : string) :
  (i ≤ j)%nat → rows !! i = Some ri → rows !! j = Some rj →
  (Spec.uninfected assay ri ≤ Spec.uninfected assay rj)%Z.
Proof.
  intros Hij Hi Hj. unfold Spec.uninfected.
  rewrite (rows_upto_lookup _ _ _ NoDup_rows Hi).
  rewrite (rows_upto_lookup _ _ _ NoDup_rows Hj).
  rewrite <- (take_drop (S i) (take (S j) rows)), take_take, sumZ_app.
  replace (S i `min` S j)%nat with (S i) by lia.
  pose proof (sumZ_nonneg
                (λ r, (Spec.nreplicates assay - Spec.count assay r)%Z)
                (drop (S i) (take (S j) rows))) as Hnn.
  assert (0 ≤ sumZ (λ r, (Spec.nreplicates assay - Spec.count assay r)%Z)
                (drop (S i) (take (S j) rows)))%Z; [|lia].
  apply Hnn. intros r _. pose proof (count_bounds assay r). lia.
Qed.

Lemma Qdiv_le_cross (a b c d : Q) :
  (0 < b)%Q → (0 < d)%Q → (a * d <= c * b)%Q → (a / b <= c / d)%Q.
Proof.
  intros Hb Hd H. apply Qle_shift_div_r; [done |].
  assert (E : (c / d * b == c * b / d)%Q)
    by (field; intros E; rewrite E in Hd; by apply Qlt_irrefl in Hd).
  rewrite E. by apply Qle_shift_div_l.
Qed.

Lemma percentInfected_antitone assay (i j : nat) (ri rj : string) :
  valid_assay assay →
  (i ≤ j)%nat → rows !! i = Some ri → rows !! j = Some rj →
  (Spec.percentInfected assay rj <= Spec.percentInfected assay ri)%Q.
Proof.
  intros [Hlen _] Hij Hi Hj.
  assert (Hri : ri ∈ rows) by by eapply list_elem_of_lookup_2.
  assert (Hrj : rj ∈ rows) by by eapply list_elem_of_lookup_2.
  pose proof (Spec_infected_antitone assay i j ri rj Hij Hi Hj) as HI.
  pose proof (Spec_uninfected_monotone assay i j ri rj Hij Hi Hj) as HU.
  pose proof (Spec_infected_nonneg assay rj) as HIj.
  pose proof (Spec_uninfected_nonneg assay ri) as HUi.
  pose proof (Spec_denominator_pos assay ri Hri) as Hdi.
  pose proof (Spec_denominator_pos assay rj Hrj) as Hdj.
  unfold Spec.nreplicates in Hdi, Hdj.
  unfold Spec.percentInfected.
  set (Ii := Spec.infected assay ri) in *. set (Ij := Spec.infected assay rj) in *.
  set (Ui := Spec.uninfected assay ri) in *. set (Uj := Spec.uninfected assay rj) in *.
  apply Qdiv_le_cross.
  - change 0%Q with (inject_Z 0). rewrite <- Zlt_Qlt. lia.
  - change 0%Q with (inject_Z 0). rewrite <- Zlt_Qlt. lia.
  - change 100%Q with (inject_Z 100).
    rewrite <- !inject_Z_mult, <- Zle_Qle. nia.
Qed.

(** X1: on a valid assay the cumulative percent infected never increases
    from one row to a later (more dilute) row. *)
Theorem Titer_percent_antitone (infectedwells : list (list string)) :
  valid_assay infectedwells →
  ∃ t : tables, Titer_tables infectedwells = inr t ∧
    ∀ (i j : nat) (ri rj : string),
      (i ≤ j)%nat → rows !! i = Some ri → rows !! j = Some rj →
      ∃ pi pj : Q,
        percentinfected t !! ri = Some pi ∧
        percentinfected t !! rj = Some pj ∧ (pj <= pi)%Q.
Proof.
  intros Hvalid.
  destruct (Titer_tables_valid infectedwells Hvalid) as (t & Hrun & Ht).
  exists t. split; [done |]. intros i j ri rj Hij Hi Hj.
  exists (Spec.percentInfected infectedwells ri),
         (Spec.percentInfected infectedwells rj).
  split_and!.
  - apply Ht. by eapply list_elem_of_lookup_2.
  - apply Ht. by eapply list_elem_of_lookup_2.
  - by eapply percentInfected_antitone.
Qed.

Lemma Titer_percent_antitone_witness :
  ∃ t : tables, Titer_tables example_assay = inr t ∧
    ∀ (i j : nat) (ri rj : string),
      (i ≤ j)%nat → rows !! i = Some ri → rows !! j = Some rj →
      ∃ pi pj : Q,
        percentinfected t !! ri = Some pi ∧
        percentinfected t !! rj = Some pj ∧ (pj <= pi)%Q.
Proof.
  apply (Titer_percent_antitone example_assay).
  by apply (bool_decide_unpack (valid_assay example_assay)).
Defined.

(** X2: on a valid assay on which the crossing is found, the crossing is the
    only one: a row is below 50% exactly when it comes after the selected
    row above 50%. *)
Theorem Titer_single_crossing
  (infectedwells : list (list string)) (t : tables) (c : crossing) :
  valid_assay infectedwells →
  Titer_tables infectedwells = inr t →
  Titer_crossing (percentinfected t) = inr c →
  ∀ (j : nat) (row : string), rows !! j = Some row →
    ∃ p : Q, percentinfected t !! row = Some p ∧
      ((p < 50)%Q ↔ (startdilution c < j)%nat).
Proof.
  intros Hvalid Ht Hc j row Hj.
  destruct (Titer_tables_valid infectedwells Hvalid) as (t' & Ht' & Hrows).
  rewrite Ht in Ht'. injection Ht' as <-.
  assert (Hpm : ∀ r, r ∈ rows →
            percentinfected t !! r = Some (Spec.percentInfected infectedwells r)).
  { intros r Hr. by destruct (Hrows r Hr) as (_ & _ & _ & ?). }
  rewrite (Titer_crossing_ok _ _ Hpm) in Hc.
  apply find_crossing_inr in Hc
    as (k & above & next & Habove & Hnext & Hlt & Hbefore & ->).
  cbn [startdilution].
  exists (Spec.percentInfected infectedwells row).
  split; [apply Hpm; by eapply list_elem_of_lookup_2 |].
  split.
  - intros Hp. destruct (decide (k < j)%nat) as [|Hjk]; [done |].
    assert (50 <= Spec.percentInfected infectedwells row)%Q
      by (eapply Hbefore; [done | lia]).
    lra.
  - intros Hkj.
    pose proof (percentInfected_antitone infectedwells (S k) j next row
                  Hvalid Hkj Hnext Hj). lra.
Qed.

Lemma Titer_single_crossing_witness :
  ∃ (t : tables) (c : crossing),
    Titer_tables example_assay = inr t ∧
    Titer_crossing (percentinfected t) = inr c ∧
    ∀ (j : nat) (row : string), rows !! j = Some row →
      ∃ p : Q, percentinfected t !! row = Some p ∧
        ((p < 50)%Q ↔ (startdilution c < j)%nat).
Proof.
  pose proof example_assay_crossing as Hrun.
  destruct (Titer_tables example_assay) as [e|t] eqn:Ht; [done |].
  cbn [bind] in Hrun.
  exists t, (Crossing "D" (200 # 3) (0 # 4) (600 # 2400) 3).
  split; [done |]. split; [done |].
  apply (Titer_single_crossing example_assay t _); [|done|done].
  by apply (bool_decide_unpack (valid_assay example_assay)).
Defined.

(** ** When [Titer] succeeds, and how large the titer is *)

(** The exponent of line 74 is below 7. *)
Lemma find_crossing_exponent (P : string → Q) (c : crossing) :
  find_crossing P = inr c →
  (Q2R (inject_Z (Z.of_nat (startdilution c)) + index c) <= INR 7)%R.
Proof.
  intros (k & above & next & Habove & Hnext & Hlt & Hbefore & ->)%find_crossing_inr.
  cbn [startdilution index]. rewrite Q2R_start_index.
  destruct (interpolation_bounds (P above) (P next)) as (_ & _ & H1);
    [by eapply Hbefore | done |].
  apply Qlt_Rlt in H1.
  replace (Q2R 1) with 1%R in H1 by (unfold Q2R; simpl; lra).
  assert (Hk : (k ≤ 6)%nat).
  { apply lookup_lt_Some in Hnext. simpl in Hnext. lia. }
  apply le_INR in Hk. simpl in Hk |- *. lra.
Qed.

(** Line 74 on a crossing that was found: a titer, or the overflow of the
    power; a titer when dilution ^ 7 is within the float range. *)
Lemma Titer_value_found (P : string → Q) (c : crossing) (volume dilution : Q) :
  find_crossing P = inr c → (0 < volume)%Q → (1 < dilution)%Q →
  ((∃ titer : R, Titer_value volume dilution c = inr titer) ∨
   Titer_value volume dilution c = inl OverflowError) ∧
  ((dilution ^ 7 <= float_max)%Q →
   ∃ titer : R, Titer_value volume dilution c = inr titer).
Proof.
  intros Hc%find_crossing_exponent Hv Hd. split.
  - destruct (Rle_lt_dec
                (Rpower (Q2R dilution)
                   (Q2R (inject_Z (Z.of_nat (startdilution c)) + index c)))
                (Q2R float_max)) as [Hrange|Hrange].
    + left. rewrite Titer_value_pos by (done || lra). by eexists.
    + right. apply Titer_value_overflow; [lra | done].
  - intros Hmax. rewrite Titer_value_pos; [by eexists | done | lra |].
    by apply (Rpower_in_range dilution _ 7).
Qed.

(** X3: on a valid assay with volume > 0 and dilution > 1 the outcome is
    decided by the first and the last row: [FirstDilutionBelow50] when row A
    is below 50%, [NoDilutionBelow50] when row H is at 50% or more, and
    otherwise a titer, or [OverflowError] from the power of line 74; the
    titer is returned whenever dilution ^ 7 is within the float range.  No
    other exception is raised. *)
Theorem Titer_outcome
  (infectedwells : list (list string)) (volume dilution : Q) :
  valid_assay infectedwells → (0 < volume)%Q → (1 < dilution)%Q →
  ∃ (t : tables) (pA pH : Q),
    Titer_tables infectedwells = inr t ∧
    percentinfected t !! "A" = Some pA ∧
    percentinfected t !! "H" = Some pH ∧
    ((pA < 50)%Q →
       Titer infectedwells volume dilution = inl FirstDilutionBelow50) ∧
    ((50 <= pH)%Q →
       Titer infectedwells volume dilution = inl NoDilutionBelow50) ∧
    ((50 <= pA)%Q → (pH < 50)%Q →
       (∃ titer : R, Titer infectedwells volume dilution = inr titer) ∨
       Titer infectedwells volume dilution = inl OverflowError) ∧
    ((50 <= pA)%Q → (pH < 50)%Q → (dilution ^ 7 <= float_max)%Q →
       ∃ titer : R, Titer infectedwells volume dilution = inr titer).
Proof.
  intros Hvalid Hv Hd.
  destruct (Titer_tables_valid infectedwells Hvalid) as (t & Ht & Hrows).
  exists t, (Spec.percentInfected infectedwells "A"),
            (Spec.percentInfected infectedwells "H").
  assert (Hpm : ∀ r, r ∈ rows →
            percentinfected t !! r = Some (Spec.percentInfected infectedwells r)).
  { intros r Hr. by destruct (Hrows r Hr) as (_ & _ & _ & ?). }
  split; [done |].
  split; [by apply Hpm, (list_elem_of_lookup_2 rows 0) |].
  split; [by apply Hpm, (list_elem_of_lookup_2 rows 7) |].
  rewrite Titer_valid by done.
  assert (Hfound : (50 <= Spec.percentInfected infectedwells "A")%Q →
            (Spec.percentInfected infectedwells "H" < 50)%Q →
            ∃ c, find_crossing (Spec.percentInfected infectedwells) = inr c).
  { intros HA HH. unfold find_crossing.
    destruct (list_find_elem_of
                (λ row, (Spec.percentInfected infectedwells row < 50)%Q)
                rows "H") as [[j next] Hfind];
      [by apply (list_elem_of_lookup_2 rows 7) | done |].
    rewrite Hfind.
    apply list_find_Some in Hfind as (Hnext & Hlt & _).
    destruct j as [|k].
    { injection Hnext as <-. by apply Qle_not_lt in HA. }
    destruct (lookup_lt_is_Some_2 rows k) as [above ->].
    { apply lookup_lt_Some in Hnext. lia. }
    by eexists. }
  split_and!.
  - intros HA. unfold find_crossing, rows. cbn [list_find].
    by rewrite decide_True.
  - intros HH.
    assert (Hnone : list_find
              (λ row, (Spec.percentInfected infectedwells row < 50)%Q) rows = None).
    { apply list_find_None, Forall_lookup. intros j row Hj.
      assert (j ≤ 7)%nat by (apply lookup_lt_Some in Hj; simpl in Hj; lia).
      pose proof (percentInfected_antitone infectedwells j 7 row "H" Hvalid)
        as Hle.
      apply Qle_not_lt. apply (Qle_trans _ _ _ HH). by apply Hle. }
    unfold find_crossing. by rewrite Hnone.
  - intros HA HH. destruct (Hfound HA HH) as [c Hc]. rewrite Hc. cbn [bind].
    by apply (Titer_value_found _ _ _ _ Hc).
  - intros HA HH Hmax. destruct (Hfound HA HH) as [c Hc]. rewrite Hc.
    cbn [bind]. by apply (Titer_value_found _ _ _ _ Hc).
Qed.

Lemma Titer_outcome_witness :
  ∃ (t : tables) (pA pH : Q),
    Titer_tables example_assay = inr t ∧
    percentinfected t !! "A" = Some pA ∧
    percentinfected t !! "H" = Some pH ∧
    ((pA < 50)%Q →
       Titer example_assay (1 # 20) 10 = inl FirstDilutionBelow50) ∧
    ((50 <= pH)%Q →
       Titer example_assay (1 # 20) 10 = inl NoDilutionBelow50) ∧
    ((50 <= pA)%Q → (pH < 50)%Q →
       (∃ titer : R, Titer example_assay (1 # 20) 10 = inr titer) ∨
       Titer example_assay (1 # 20) 10 = inl OverflowError) ∧
    ((50 <= pA)%Q → (pH < 50)%Q → (10 ^ 7 <= float_max)%Q →
       ∃ titer : R, Titer example_assay (1 # 20) 10 = inr titer).
Proof.
  apply (Titer_outcome example_assay (1 # 20) 10).
  - by apply (bool_decide_unpack (valid_assay example_assay)).
  - reflexivity.
  - reflexivity.
Defined.

(** X4: on a valid assay with volume > 0 and dilution > 1, a returned titer
    lies between the dilutions of the two rows around the crossing:
    dilution ^ k / volume <= titer < dilution ^ (k+1) / volume, where
    k <= 6 is the start dilution. *)
Theorem Titer_bounds
  (infectedwells : list (list string)) (volume dilution : Q) (titer : R) :
  valid_assay infectedwells → (0 < volume)%Q → (1 < dilution)%Q →
  Titer infectedwells volume dilution = inr titer →
  ∃ (t : tables) (c : crossing),
    Titer_tables infectedwells = inr t ∧
    Titer_crossing (percentinfected t) = inr c ∧
    (startdilution c ≤ 6)%nat ∧
    (Q2R dilution ^ startdilution c / Q2R volume <= titer)%R ∧
    (titer < Q2R dilution ^ S (startdilution c) / Q2R volume)%R.
Proof.
  intros Hvalid Hv Hd Hrun. unfold Titer in Hrun.
  destruct (Titer_tables_valid infectedwells Hvalid) as (t & Ht & Hrows).
  rewrite Ht in Hrun. cbn [bind] in Hrun.
  assert (Hpm : ∀ r, r ∈ rows →
            percentinfected t !! r = Some (Spec.percentInfected infectedwells r)).
  { intros r Hr. by destruct (Hrows r Hr) as (_ & _ & _ & ?). }
  destruct (Titer_crossing (percentinfected t)) as [e|c] eqn:Hc; [done |].
  cbn [bind] in Hrun. rename Hrun into Hval.
  exists t, c. split; [done |]. split; [done |].
  rewrite (Titer_crossing_ok _ _ Hpm) in Hc.
  apply find_crossing_inr in Hc
    as (k & above & next & Habove & Hnext & Hlt & Hbefore & ->).
  cbn [startdilution index] in *.
  destruct (interpolation_bounds (Spec.percentInfected infectedwells above)
              (Spec.percentInfected infectedwells next)) as (_ & H0 & H1);
    [by eapply Hbefore | done |].
  assert (Hk : (k ≤ 6)%nat).
  { apply lookup_lt_Some in Hnext. simpl in Hnext. lia. }
  split; [done |].
  apply Titer_value_inr in Hval as [-> _]; [|lra].
  cbn [startdilution index]. rewrite Q2R_start_index.
  assert (Hd1 : (1 < Q2R dilution)%R).
  { replace 1%R with (Q2R 1) by (unfold Q2R; simpl; lra). by apply Qlt_Rlt. }
  assert (Hv0 : (0 < Q2R volume)%R).
  { replace 0%R with (Q2R 0) by (unfold Q2R; simpl; lra). by apply Qlt_Rlt. }
  apply Qle_Rle in H0. apply Qlt_Rlt in H1.
  replace (Q2R 0) with 0%R in H0 by (unfold Q2R; simpl; lra).
  replace (Q2R 1) with 1%R in H1 by (unfold Q2R; simpl; lra).
  rewrite <- !Rpower_pow by lra. rewrite S_INR.
  split.
  - apply Rmult_le_compat_r; [left; by apply Rinv_0_lt_compat |].
    apply Rle_Rpower; lra.
  - apply Rmult_lt_compat_r; [by apply Rinv_0_lt_compat |].
    apply Rpower_lt; lra.
Qed.

Lemma Titer_bounds_witness :
  ∃ (t : tables) (c : crossing),
    Titer_tables example_assay = inr t ∧
    Titer_crossing (percentinfected t) = inr c ∧
    (startdilution c ≤ 6)%nat ∧
    (Q2R 10 ^ startdilution c / Q2R (1 # 20)
     <= Rpower (Q2R 10) (Q2R (inject_Z 3 + (600 # 2400))) / Q2R (1 # 20))%R ∧
    (Rpower (Q2R 10) (Q2R (inject_Z 3 + (600 # 2400))) / Q2R (1 # 20)
     < Q2R 10 ^ S (startdilution c) / Q2R (1 # 20))%R.
Proof.
  apply (Titer_bounds example_assay (1 # 20) 10).
  - by apply (bool_decide_unpack (valid_assay example_assay)).
  - reflexivity.
  - reflexivity.
  - by apply (Titer_run example_assay (1 # 20) 10 _ eq_refl eq_refl
                example_assay_crossing eq_refl eq_refl).
Defined.

(** ** Only the pooled wells matter *)

Lemma occurrences_Permutation row ws1 ws2 :
  ws1 ≡ₚ ws2 → occurrences row ws1 = occurrences row ws2.
Proof.
  induction 1 as [|w ws1 ws2 _ IH|w1 w2 ws|ws1 ws2 ws3 _ IH1 _ IH2]; simpl.
  - done.
  - by rewrite IH.
  - lia.
  - by rewrite IH1.
Qed.

(** X5: [Titer] depends on the replicates only through their number and the
    pooled list of wells: two inputs with labels in A-H, as many replicates,
    and the same wells up to order (within or across replicates) give the
    same result, error or titer. *)
Theorem Titer_pooled_wells
  (infectedwells1 infectedwells2 : list (list string)) (volume dilution : Q) :
  Forall (Forall (λ well, well ∈ rows)) infectedwells1 →
  length infectedwells1 = length infectedwells2 →
  concat infectedwells1 ≡ₚ concat infectedwells2 →
  Titer infectedwells1 volume dilution = Titer infectedwells2 volume dilution.
Proof.
  intros Hlabels1 Hlen Hperm.
  assert (Hlabels2 : Forall (Forall (λ well, well ∈ rows)) infectedwells2).
  { apply Forall_concat. rewrite <- Hperm. by apply Forall_concat. }
  assert (Hinit : ∀ row, row ∈ rows → is_Some (counts_init !! row)).
  { intros row Hrow. rewrite counts_init_lookup, decide_True by done. by eexists. }
  destruct (count_replicates_ok infectedwells1 counts_init Hlabels1 Hinit)
    as (m1 & Hrun1 & Hm1).
  destruct (count_replicates_ok infectedwells2 counts_init Hlabels2 Hinit)
    as (m2 & Hrun2 & Hm2).
  assert (m1 = m2) as <-.
  { apply map_eq. intros row. rewrite Hm1, Hm2. unfold total.
    by rewrite (occurrences_Permutation row _ _ Hperm). }
  unfold Titer, Titer_tables. by rewrite Hlen, Hrun1, Hrun2.
Qed.

Lemma Titer_pooled_wells_witness :
  Titer [["A"; "B"]; ["A"]; ["B"; "C"; "A"]] (1 # 20) 10
  = Titer [["A"; "C"; "B"]; ["B"; "A"]; ["A"]] (1 # 20) 10.
Proof.
  apply (Titer_pooled_wells [["A"; "B"]; ["A"]; ["B"; "C"; "A"]]
           [["A"; "C"; "B"]; ["B"; "A"]; ["A"]] (1 # 20) 10).
  - by apply (bool_decide_unpack
                (Forall (Forall (λ well, well ∈ rows))
                   [["A"; "B"]; ["A"]; ["B"; "C"; "A"]])).
  - reflexivity.
  - by apply (bool_decide_unpack
                (concat [["A"; "B"]; ["A"]; ["B"; "C"; "A"]]
                 ≡ₚ concat [["A"; "C"; "B"]; ["B"; "A"]; ["A"]])).
Defined.

(** X6: on a valid assay every well of the plate is accounted for once: the
    infected total accumulated up to row A and the uninfected total
    accumulated down to row H add up to 8 wells per replicate. *)
Theorem Titer_all_wells (infectedwells : list (list string)) :
  valid_assay infectedwells →
  ∃ (t : tables) (i u : Z),
    Titer_tables infectedwells = inr t ∧
    infected t !! "A" = Some i ∧ uninfected t !! "H" = Some u ∧
    (i + u = 8 * Z.of_nat (length infectedwells))%Z.
Proof.
  intros Hvalid.
  destruct (Titer_tables_valid infectedwells Hvalid) as (t & Ht & Hrows).
  exists t, (Spec.infected infectedwells "A"), (Spec.uninfected infectedwells "H").
  split; [done |].
  destruct (Hrows "A") as (_ & _ & HA & _);
    [by apply (list_elem_of_lookup_2 rows 0) |].
  destruct (Hrows "H") as (_ & HH & _ & _);
    [by apply (list_elem_of_lookup_2 rows 7) |].
  split; [done |]. split; [done |].
  unfold Spec.infected, Spec.uninfected, Spec.nreplicates.
  change (reverse (rows_from "A" rows)) with reverserows.
  change (rows_upto "H" rows) with rows.
  unfold reverserows. rewrite sumZ_reverse. unfold rows, sumZ. simpl. lia.
Qed.

Lemma Titer_all_wells_witness :
  ∃ (t : tables) (i u : Z),
    Titer_tables example_assay = inr t ∧
    infected t !! "A" = Some i ∧ uninfected t !! "H" = Some u ∧
    (i + u = 8 * Z.of_nat (length example_assay))%Z.
Proof.
  apply (Titer_all_wells example_assay).
  by apply (bool_decide_unpack (valid_assay example_assay)).
Defined.

(** * Properties of the script *)

(** ** One replicate line: lines 153-162 *)

Lemma validrows_rows : validrows = rows.
Proof. reflexivity. Qed.

Lemma list_count_not_elem x l : x ∉ l → list_count x l = 0%nat.
Proof.
  unfold list_count. induction l as [|y l IH]; [done |].
  rewrite not_elem_of_cons. intros [Hne Hnin].
  rewrite filter_cons_False by congruence. by apply IH.
Qed.

Lemma list_count_elem x l : x ∈ l → (1 ≤ list_count x l)%nat.
Proof.
  unfold list_count. induction 1 as [x l|x y l _ IH].
  - rewrite filter_cons_True by done. simpl. lia.
  - rewrite filter_cons. case_decide; simpl; lia.
Qed.

(** Every element occurs once exactly when there is no duplicate. *)
Lemma list_count_NoDup l :
  Forall (λ x, list_count x l = 1%nat) l ↔ NoDup l.
Proof.
  induction l as [|y l IH].
  - split; [intros _; apply NoDup_nil_2 | intros _; apply Forall_nil_2].
  - rewrite Forall_cons, NoDup_cons. unfold list_count in *.
    rewrite filter_cons_True by done. cbn [length]. split.
    + intros [Hy Hl].
      assert (Hnin : y ∉ l).
      { intros Hin. apply list_count_elem in Hin. unfold list_count in Hin. lia. }
      split; [done |]. apply IH. apply Forall_forall. intros x Hx.
      rewrite Forall_forall in Hl. specialize (Hl x Hx).
      rewrite filter_cons_False in Hl; [done |]. intros ->. done.
    + intros [Hnin Hnd]. split.
      * pose proof (list_count_not_elem y l Hnin) as H0.
        unfold list_count in H0. by rewrite H0.
      * apply IH in Hnd. rewrite Forall_forall in Hnd.
        apply Forall_forall. intros x Hx.
        rewrite filter_cons_False; [by apply Hnd |]. intros ->. done.
Qed.

Lemma check_rows_inr line rs xs :
  check_rows line rs xs = inr tt ↔
  Forall (λ x, x ∈ validrows ∧ list_count x rs = 1%nat) xs.
Proof.
  induction xs as [|x xs IH]; cbn [check_rows].
  - split; [intros _; apply Forall_nil_2 | done].
  - rewrite Forall_cons. destruct (decide (x ∈ validrows)) as [Hin|Hnin].
    + destruct (decide (list_count x rs ≠ 1%nat)) as [Hne|Heq].
      * split; [done | by intros [[_ ?] _]].
      * rewrite IH. apply dec_stable in Heq. tauto.
    + split; [done | by intros [[? _] _]].
Qed.

Lemma parse_replicate_valid line replicate :
  parse_replicate line = inr replicate → valid_replicate replicate.
Proof.
  unfold parse_replicate. case_decide.
  - intros [= <-]. split; [apply NoDup_nil_2 | apply Forall_nil_2].
  - set (fields := strip <$> split (Ascii.ascii_of_nat 44) line).
    destruct (check_rows line fields fields) as [e|[]] eqn:Hcheck; [done |].
    cbn [sbind]. intros [= <-]. apply check_rows_inr in Hcheck. split.
    + apply list_count_NoDup. eapply Forall_impl; [exact Hcheck |].
      by intros x [_ ?].
    + eapply Forall_impl; [exact Hcheck |]. by intros x [? _].
Qed.

(** X7: a replicate line is accepted exactly when it is [na], which gives
    the empty replicate, or when its comma-separated fields, stripped of
    surrounding whitespace, are distinct rows of A-H, which gives these
    fields; so an accepted line always yields a valid replicate. *)
Theorem parse_replicate_accepts (line : string) (replicate : list string) :
  parse_replicate line = inr replicate ↔
  (strip line = "na" ∧ replicate = []) ∨
  (strip line ≠ "na" ∧
   replicate = strip <$> split (Ascii.ascii_of_nat 44) line ∧
   valid_replicate replicate).
Proof.
  unfold parse_replicate. destruct (decide (strip line = "na")) as [Hna|Hna].
  - split.
    + intros [= <-]. by left.
    + intros [[_ ->]|[? _]]; done.
  - set (fields := strip <$> split (Ascii.ascii_of_nat 44) line).
    destruct (check_rows line fields fields) as [e|[]] eqn:Hcheck; cbn [sbind].
    + split; [done |]. intros [[? _]|(_ & -> & Hnd & Hin)]; [done |].
      assert (Hok : check_rows line fields fields = inr tt).
      { apply check_rows_inr. apply list_count_NoDup in Hnd.
        rewrite Forall_forall in Hnd, Hin. apply Forall_forall.
        intros x Hx. split; [by apply Hin | by apply Hnd]. }
      congruence.
    + apply check_rows_inr in Hcheck. split.
      * intros [= <-]. right. split; [done |]. split; [done |]. split.
        -- apply list_count_NoDup. eapply Forall_impl; [exact Hcheck |].
           by intros x [_ ?].
        -- eapply Forall_impl; [exact Hcheck |]. by intros x [? _].
      * by intros [[? _]|(_ & -> & _)].
Qed.


(** ** The sample blocks: lines 140-162 *)

Lemma replicates_loop_inr samplelines :
  ∀ (sample : string) (sd sd' : gmap string (list (list string)))
    (replicates0 : list (list string)),
    sd !! sample = Some replicates0 →
    replicates_loop samplelines sample sd = inr sd' →
    ∃ replicates : list (list string),
      sd' = <[sample := (replicates0 ++ replicates)%list]> sd ∧
      length replicates = length samplelines ∧
      Forall valid_replicate replicates.
Proof.
  induction samplelines as [|line samplelines IH];
    intros sample sd sd' replicates0 Hsd; cbn [replicates_loop].
  - intros [= <-]. exists []. rewrite app_nil_r, insert_id by done.
    split_and!; [done | done | apply Forall_nil_2].
  - destruct (parse_replicate line) as [e|rs] eqn:Hparse; [done |].
    cbn [sbind]. rewrite (getitem_Some _ _ _ Hsd). cbn [lift sbind].
    intros Hrun.
    apply (IH _ _ _ (replicates0 ++ [rs])%list) in Hrun
      as (replicates & -> & Hlen & Hvalid); [|apply lookup_insert_eq].
    exists (rs :: replicates). split_and!.
    + rewrite insert_insert_eq. f_equal. by rewrite <- app_assoc.
    + simpl. by rewrite Hlen.
    + apply Forall_cons. split; [by eapply parse_replicate_valid | done].
Qed.

(** The crossing is found, or one of the two assay-shape errors is raised. *)
Lemma find_crossing_cases (P : string → Q) :
  (∃ c : crossing, find_crossing P = inr c) ∨
  find_crossing P = inl FirstDilutionBelow50 ∨
  find_crossing P = inl NoDilutionBelow50.
Proof.
  unfold find_crossing.
  destruct (list_find (λ row, (P row < 50)%Q) rows) as [[[|k] next]|] eqn:Hfind.
  - by right; left.
  - apply list_find_Some in Hfind as (Hnext & _ & _).
    destruct (lookup_lt_is_Some_2 rows k) as [above ->].
    { apply lookup_lt_Some in Hnext. lia. }
    left. by eexists.
  - by right; right.
Qed.

Section script_properties.

Variable re_search : string → string → string → option string.
Variable py_float : string → Q.
Variable py_int : string → Z.

(** The loop over the samples keeps the names distinct and equal to the keys
    of the dictionary, and gives every sample [nreplicates] valid
    replicates. *)
Lemma samples_loop_inr isamples (lines : list string) (n lps : nat) :
  ∀ (sd sd' : gmap string (list (list string))) (names names' : list string),
    samples_loop re_search isamples lines n lps sd names = inr (sd', names') →
    NoDup names →
    (∀ s, s ∈ names ↔ is_Some (sd !! s)) →
    (∀ s data, sd !! s = Some data →
       length data = n ∧ Forall valid_replicate data) →
    NoDup names' ∧
    (∀ s, s ∈ names' ↔ is_Some (sd' !! s)) ∧
    (∀ s data, sd' !! s = Some data →
       length data = n ∧ Forall valid_replicate data) ∧
    length names' = (length names + length isamples)%nat.
Proof.
  induction isamples as [|isample isamples IH];
    intros sd sd' names names' Hrun Hnd Hkeys Hdata; cbn [samples_loop] in Hrun.
  - injection Hrun as <- <-. split_and!; [done | done | done | simpl; lia].
  - destruct (list_getitem lines (isample * lps)) as [e|nameline]; [done |].
    cbn [lift sbind] in Hrun.
    destruct (decide (length (slice lines (isample * lps + 1)
                                ((isample + 1) * lps)) ≠ n)) as [|Hlen];
      [done |].
    apply dec_stable in Hlen.
    destruct (re_search namepattern "name" nameline) as [name|]; [|done].
    destruct (decide (is_Some (sd !! strip name))) as [|Hfresh]; [done |].
    destruct (replicates_loop _ (strip name) (<[strip name := []]> sd))
      as [e|sd1] eqn:Hloop; [done |].
    cbn [sbind] in Hrun.
    apply (replicates_loop_inr _ _ _ _ []) in Hloop
      as (replicates & -> & Hlen' & Hvalid); [|apply lookup_insert_eq].
    rewrite insert_insert_eq, app_nil_l in Hrun.
    apply IH in Hrun as (Hnd' & Hkeys' & Hdata' & Hlength).
    + split_and!; [done | done | done |].
      rewrite Hlength, length_app. simpl. lia.
    + apply NoDup_app. split_and!; [done | | apply NoDup_singleton].
      intros s Hs ->%list_elem_of_singleton. by apply Hfresh, Hkeys.
    + intros s. rewrite elem_of_app, list_elem_of_singleton, Hkeys.
      rewrite lookup_insert. case_decide as Hs.
      * subst s. split; [by eexists | by right].
      * split; [intros [?|?]; [done | congruence] | by left].
    + intros s data. rewrite lookup_insert. case_decide as Hs.
      * intros [= <-]. split; [congruence | done].
      * apply Hdata.
Qed.

(** What a successful [ParseInput] guarantees. *)
Lemma ParseInput_inr (filelines samplenames : list string)
  (sampledata : gmap string (list (list string))) (volume dilution : Q) :
  ParseInput re_search py_float py_int filelines
  = inr (samplenames, sampledata, volume, dilution) →
  (1 < dilution)%Q ∧
  NoDup samplenames ∧
  (∀ sample, sample ∈ samplenames ↔ is_Some (sampledata !! sample)) ∧
  ∃ (nreplicates : nat) (lines : list string),
    (2 ≤ nreplicates)%nat ∧
    effective_lines filelines = inr lines ∧
    length lines = (3 + length samplenames * (nreplicates + 1))%nat ∧
    ∀ sample data, sampledata !! sample = Some data →
      length data = nreplicates ∧ Forall valid_replicate data.
Proof.
  unfold ParseInput.
  destruct (effective_lines filelines) as [e|lines]; [done |]. cbn [sbind].
  destruct (list_getitem lines 0) as [e|line1]; [done |]. cbn [lift sbind].
  destruct (re_search line1pattern "volume" line1) as [volumetext|]; [|done].
  destruct (list_getitem lines 1) as [e|line2]; [done |]. cbn [lift sbind].
  destruct (re_search line2pattern "dilution" line2) as [dilutiontext|]; [|done].
  destruct (Qle_bool (py_float dilutiontext) 1) eqn:Hdil; [done |].
  destruct (list_getitem lines 2) as [e|line3] eqn:Hline3; [done |].
  cbn [lift sbind].
  destruct (re_search line3pattern "nreplicates" line3) as [ntext|]; [|done].
  destruct (decide (py_int ntext < 2)%Z) as [|Hn]; [done |].
  set (n := Z.to_nat (py_int ntext)).
  destruct (decide (length (drop 3 lines) `mod` (n + 1) ≠ 0)%nat) as [|Hmod];
    [done |].
  apply dec_stable in Hmod.
  destruct (samples_loop _ _ _ _ _ _ _) as [e|[sd names]] eqn:Hloop; [done |].
  cbn [sbind]. intros [= <- <- <- <-].
  apply samples_loop_inr in Hloop as (Hnd & Hkeys & Hdata & Hlength).
  - split.
    { apply Qnot_le_lt. intros Hle. apply Qle_bool_iff in Hle. congruence. }
    split; [done |]. split; [done |].
    exists n, lines. split; [lia |]. split; [done |]. split; [|done].
    rewrite length_seq in Hlength. simpl in Hlength. rewrite Hlength.
    unfold list_getitem in Hline3.
    destruct (lines !! 2%nat) eqn:Hl; [|done].
    apply lookup_lt_Some in Hl. rewrite length_drop in Hmod |- *.
    pose proof (Nat.div_mod_eq (length lines - 3) (n + 1)) as Hdm.
    rewrite Hmod in Hdm. lia.
  - apply NoDup_nil_2.
  - intros s. rewrite lookup_empty. split; [by intros ?%elem_of_nil | by intros [? ?]].
  - intros s data. by rewrite lookup_empty.
Qed.

(** X8: when [ParseInput] returns, the dilution is above 1 and the data of
    every sample is a valid assay for [Titer]: at least two replicates, each
    a duplicate-free list of rows A-H. *)
Theorem ParseInput_valid_assays (filelines samplenames : list string)
  (sampledata : gmap string (list (list string))) (volume dilution : Q) :
  ParseInput re_search py_float py_int filelines
  = inr (samplenames, sampledata, volume, dilution) →
  (1 < dilution)%Q ∧
  ∀ sample data, sampledata !! sample = Some data → valid_assay data.
Proof.
  intros (Hd & _ & _ & n & lines & Hn & _ & _ & Hdata)%ParseInput_inr.
  split; [done |]. intros sample data Hsample.
  destruct (Hdata sample data Hsample) as [Hlen Hvalid].
  split; [lia | done].
Qed.

(** X9: when [ParseInput] returns, the sample names are distinct and are
    exactly the keys of the data; all the samples have the same number
    n >= 2 of replicates, and the file has 3 + (number of samples) * (n + 1)
    lines that are neither comments nor blank. *)
Theorem ParseInput_samples (filelines samplenames : list string)
  (sampledata : gmap string (list (list string))) (volume dilution : Q) :
  ParseInput re_search py_float py_int filelines
  = inr (samplenames, sampledata, volume, dilution) →
  NoDup samplenames ∧
  (∀ sample, sample ∈ samplenames ↔ is_Some (sampledata !! sample)) ∧
  ∃ (nreplicates : nat) (lines : list string),
    (2 ≤ nreplicates)%nat ∧
    effective_lines filelines = inr lines ∧
    length lines = (3 + length samplenames * (nreplicates + 1))%nat ∧
    ∀ sample data, sampledata !! sample = Some data →
      length data = nreplicates.
Proof.
  intros (_ & Hnd & Hkeys & n & lines & Hn & Hlines & Hlen & Hdata)%ParseInput_inr.
  split; [done |]. split; [done |].
  exists n, lines. split_and!; [done | done | done |].
  intros sample data Hsample. by destruct (Hdata sample data Hsample).
Qed.

Lemma effective_lines_none (filelines : list string) :
  Forall (λ line, match line with
                  | EmptyString => False
                  | String c _ => c = Ascii.ascii_of_nat 35 ∨ isspace line = true
                  end) filelines →
  effective_lines filelines = inr [].
Proof.
  induction 1 as [|line filelines Hline _ IH]; [done |].
  cbn [effective_lines]. destruct line as [|c rest]; [done |].
  rewrite IH. cbn [sbind].
  destruct Hline as [-> | ->]; [done |].
  by rewrite andb_false_r.
Qed.

(** X10: on a file made only of comment lines and blank lines (or with no
    line at all) [ParseInput] raises [IndexError], from [lines[0]], and not
    one of its [IOError]s. *)
Theorem ParseInput_no_header (filelines : list string) :
  Forall (λ line, match line with
                  | EmptyString => False
                  | String c _ => c = Ascii.ascii_of_nat 35 ∨ isspace line = true
                  end) filelines →
  ParseInput re_search py_float py_int filelines = inl (Raised (IndexError 0)).
Proof.
  intros Hlines. unfold ParseInput.
  by rewrite (effective_lines_none filelines Hlines).
Qed.

(** X11: the calls of [main] (line 211) on what [ParseInput] returns, when
    the volume is positive: for every sample [Titer] either returns a titer,
    or reports that the assay does not bracket 50%
    ([FirstDilutionBelow50], [NoDilutionBelow50]), or raises
    [OverflowError] from the power of line 74; it raises nothing else, and
    no [OverflowError] when dilution ^ 7 is within the float range. *)
Theorem ParseInput_then_Titer (filelines samplenames : list string)
  (sampledata : gmap string (list (list string))) (volume dilution : Q) :
  ParseInput re_search py_float py_int filelines
  = inr (samplenames, sampledata, volume, dilution) →
  (0 < volume)%Q →
  ∀ sample data, sampledata !! sample = Some data →
    ((∃ titer : R, Titer data volume dilution = inr titer) ∨
     Titer data volume dilution = inl FirstDilutionBelow50 ∨
     Titer data volume dilution = inl NoDilutionBelow50 ∨
     Titer data volume dilution = inl OverflowError) ∧
    ((dilution ^ 7 <= float_max)%Q →
     (∃ titer : R, Titer data volume dilution = inr titer) ∨
     Titer data volume dilution = inl FirstDilutionBelow50 ∨
     Titer data volume dilution = inl NoDilutionBelow50).
Proof.
  intros (Hd & _ & _ & n & lines & Hn & _ & _ & Hdata)%ParseInput_inr
    Hv sample data Hsample.
  destruct (Hdata sample data Hsample) as [Hlen Hvalid].
  assert (Hassay : valid_assay data) by (split; [lia | done]).
  rewrite Titer_valid by done.
  destruct (find_crossing_cases (Spec.percentInfected data))
    as [[c Hc] | [-> | ->]].
  - rewrite Hc. cbn [bind].
    destruct (Titer_value_found _ _ volume dilution Hc Hv Hd)
      as [[Hret | Hover] Hsafe].
    + split; [by left | by left].
    + split; [by right; right; right |]. intros Hmax. left. by apply Hsafe.
  - split; [by right; left | by right; left].
  - split; [by right; right; left | by right; right].
Qed.

(** X12: [ParseInput] does not check the volume.  When it returns a volume
    equal to 0, no sample gets a titer: [Titer] raises [OverflowError] or
    [ZeroDivisionError] at line 74 (the power is evaluated before the
    division), unless the assay does not bracket 50%; there is no
    [OverflowError] when dilution ^ 7 is within the float range. *)
Theorem ParseInput_zero_volume (filelines samplenames : list string)
  (sampledata : gmap string (list (list string))) (volume dilution : Q) :
  ParseInput re_search py_float py_int filelines
  = inr (samplenames, sampledata, volume, dilution) →
  (volume == 0)%Q →
  ∀ sample data, sampledata !! sample = Some data →
    (Titer data volume dilution = inl ZeroDivisionError ∨
     Titer data volume dilution = inl FirstDilutionBelow50 ∨
     Titer data volume dilution = inl NoDilutionBelow50 ∨
     Titer data volume dilution = inl OverflowError) ∧
    ((dilution ^ 7 <= float_max)%Q →
     Titer data volume dilution = inl ZeroDivisionError ∨
     Titer data volume dilution = inl FirstDilutionBelow50 ∨
     Titer data volume dilution = inl NoDilutionBelow50).
Proof.
  intros (Hd & _ & _ & n & lines & Hn & _ & _ & Hdata)%ParseInput_inr
    Hv sample data Hsample.
  destruct (Hdata sample data Hsample) as [Hlen Hvalid].
  assert (Hassay : valid_assay data) by (split; [lia | done]).
  rewrite Titer_valid by done.
  destruct (find_crossing_cases (Spec.percentInfected data))
    as [[c Hc] | [-> | ->]].
  - rewrite Hc. cbn [bind].
    pose proof (find_crossing_exponent _ _ Hc) as Hexp.
    destruct (Rle_lt_dec
                (Rpower (Q2R dilution)
                   (Q2R (inject_Z (Z.of_nat (startdilution c)) + index c)))
                (Q2R float_max)) as [Hrange|Hrange].
    + rewrite Titer_value_zero_volume by (done || lra).
      split; [by left | by left].
    + rewrite Titer_value_overflow by (done || lra).
      split; [by right; right; right |]. intros Hmax. exfalso.
      pose proof (Rpower_in_range dilution _ 7 Hd Hexp Hmax). lra.
  - split; [by right; left | by right; left].
  - split; [by right; right; left | by right; right].
Qed.

End script_properties.

Lemma example_file_parsed :
  ParseInput keyword_search decimal_value digits_value example_file
  = inr (["first"; "second"],
         list_to_map [("first", example_assay);
                      ("second", [[]; ["A"]; ["A"; "B"]])],
         decimal_value "0.05", decimal_value "10").
Proof. vm_compute. reflexivity. Qed.

Lemma ParseInput_valid_assays_witness :
  ∃ (samplenames : list string) (sampledata : gmap string (list (list string)))
    (volume dilution : Q),
    ParseInput keyword_search decimal_value digits_value example_file
    = inr (samplenames, sampledata, volume, dilution) ∧
    (1 < dilution)%Q ∧
    ∀ sample data, sampledata !! sample = Some data → valid_assay data.
Proof.
  eexists _, _, _, _. split; [exact example_file_parsed |].
  exact (ParseInput_valid_assays keyword_search decimal_value digits_value
           example_file _ _ _ _ example_file_parsed).
Defined.

Lemma ParseInput_samples_witness :
  ∃ (samplenames : list string) (sampledata : gmap string (list (list string)))
    (volume dilution : Q),
    ParseInput keyword_search decimal_value digits_value example_file
    = inr (samplenames, sampledata, volume, dilution) ∧
    NoDup samplenames ∧
    (∀ sample, sample ∈ samplenames ↔ is_Some (sampledata !! sample)) ∧
    ∃ (nreplicates : nat) (lines : list string),
      (2 ≤ nreplicates)%nat ∧
      effective_lines example_file = inr lines ∧
      length lines = (3 + length samplenames * (nreplicates + 1))%nat ∧
      ∀ sample data, sampledata !! sample = Some data →
        length data = nreplicates.
Proof.
  eexists _, _, _, _. split; [exact example_file_parsed |].
  exact (ParseInput_samples keyword_search decimal_value digits_value
           example_file _ _ _ _ example_file_parsed).
Defined.

Lemma ParseInput_no_header_witness :
  ParseInput keyword_search decimal_value digits_value
    ["# only a comment" ++ newline; newline; "   " ++ newline]
  = inl (Raised (IndexError 0)).
Proof.
  apply ParseInput_no_header.
  repeat (apply Forall_cons; split); [by left | by right | by right |].
  apply Forall_nil_2.
Defined.

Lemma ParseInput_then_Titer_witness :
  ∃ (samplenames : list string) (sampledata : gmap string (list (list string)))
    (volume dilution : Q),
    ParseInput keyword_search decimal_value digits_value example_file
    = inr (samplenames, sampledata, volume, dilution) ∧
    (0 < volume)%Q ∧
    ∀ sample data, sampledata !! sample = Some data →
      ((∃ titer : R, Titer data volume dilution = inr titer) ∨
       Titer data volume dilution = inl FirstDilutionBelow50 ∨
       Titer data volume dilution = inl NoDilutionBelow50 ∨
       Titer data volume dilution = inl OverflowError) ∧
      ((dilution ^ 7 <= float_max)%Q →
       (∃ titer : R, Titer data volume dilution = inr titer) ∨
       Titer data volume dilution = inl FirstDilutionBelow50 ∨
       Titer data volume dilution = inl NoDilutionBelow50).
Proof.
  eexists _, _, _, _. split; [exact example_file_parsed |].
  split; [reflexivity |].
  exact (ParseInput_then_Titer keyword_search decimal_value digits_value
           example_file _ _ _ _ example_file_parsed eq_refl).
Defined.

Lemma zero_volume_file_parsed :
  ParseInput keyword_search decimal_value digits_value
    ["VOLUME 0" ++ newline; "DILUTION 10" ++ newline;
     "NREPLICATES 2" ++ newline; "SAMPLE s" ++ newline;
     "A,B" ++ newline; "A" ++ newline]
  = inr (["s"], list_to_map [("s", [["A"; "B"]; ["A"]])],
         decimal_value "0", decimal_value "10").
Proof. vm_compute. reflexivity. Qed.

Lemma ParseInput_zero_volume_witness :
  ∃ (samplenames : list string) (sampledata : gmap string (list (list string)))
    (volume dilution : Q),
    ParseInput keyword_search decimal_value digits_value
      ["VOLUME 0" ++ newline; "DILUTION 10" ++ newline;
       "NREPLICATES 2" ++ newline; "SAMPLE s" ++ newline;
       "A,B" ++ newline; "A" ++ newline]
    = inr (samplenames, sampledata, volume, dilution) ∧
    (volume == 0)%Q ∧
    ∀ sample data, sampledata !! sample = Some data →
      (Titer data volume dilution = inl ZeroDivisionError ∨
       Titer data volume dilution = inl FirstDilutionBelow50 ∨
       Titer data volume dilution = inl NoDilutionBelow50 ∨
       Titer data volume dilution = inl OverflowError) ∧
      ((dilution ^ 7 <= float_max)%Q →
       Titer data volume dilution = inl ZeroDivisionError ∨
       Titer data volume dilution = inl FirstDilutionBelow50 ∨
       Titer data volume dilution = inl NoDilutionBelow50).
Proof.
  eexists _, _, _, _. split; [exact zero_volume_file_parsed |].
  split; [reflexivity |].
  exact (ParseInput_zero_volume keyword_search decimal_value digits_value
           _ _ _ _ _ zero_volume_file_parsed eq_refl).
Defined.

(** ** [AskOverwrite]: lines 166-189 *)

(** X13: when the file exists, entries other than Y, y, N and n (up to
    surrounding whitespace) are asked again: the first valid entry decides,
    true for Y or y and false for N or n, and the input that follows is not
    read; if the input ends before a valid entry, [EOFError] is raised. *)
Theorem AskOverwrite_first_valid (invalid : list string) :
  Forall (λ entry, strip entry ∉ ["Y"; "y"; "N"; "n"]) invalid →
  AskOverwrite true invalid = inl EOFError ∧
  ∀ (answer : string) (answers : list string),
    strip answer ∈ ["Y"; "y"; "N"; "n"] →
    AskOverwrite true (invalid ++ answer :: answers)
    = inr (bool_decide (strip answer ∈ ["Y"; "y"])).
Proof.
  unfold AskOverwrite. induction 1 as [|entry invalid Hentry _ [IH1 IH2]].
  - split; [done |]. intros answer answers Hanswer.
    cbn [app ask_loop]. destruct (decide (strip answer ∈ ["Y"; "y"])) as [Hy|Hy].
    + by rewrite bool_decide_eq_true_2.
    + rewrite bool_decide_eq_false_2 by done.
      rewrite decide_True; [done |].
      rewrite !not_elem_of_cons in Hy. destruct Hy as (HY & Hy' & _).
      apply elem_of_cons in Hanswer as [?|Hanswer]; [done |].
      by apply elem_of_cons in Hanswer as [?|Hanswer].
  - rewrite !not_elem_of_cons in Hentry.
    destruct Hentry as (H1 & H2 & H3 & H4 & H5).
    assert (Hy : strip entry ∉ ["Y"; "y"])
      by (rewrite !not_elem_of_cons; by split_and!).
    assert (Hn : strip entry ∉ ["N"; "n"])
      by (rewrite !not_elem_of_cons; by split_and!).
    split.
    + cbn [ask_loop]. by rewrite !decide_False.
    + intros answer answers Hanswer. cbn [app ask_loop].
      rewrite !decide_False by done. by apply IH2.
Qed.

Lemma AskOverwrite_first_valid_witness :
  AskOverwrite true ["yes"; ""] = inl EOFError ∧
  ∀ (answer : string) (answers : list string),
    strip answer ∈ ["Y"; "y"; "N"; "n"] →
    AskOverwrite true (["yes"; ""] ++ answer :: answers)
    = inr (bool_decide (strip answer ∈ ["Y"; "y"])).
Proof.
  apply (AskOverwrite_first_valid ["yes"; ""]).
  apply Forall_cons. split.
  - by apply (bool_decide_unpack (strip "yes" ∉ ["Y"; "y"; "N"; "n"])).
  - apply Forall_cons. split; [|apply Forall_nil_2].
    by apply (bool_decide_unpack (strip "" ∉ ["Y"; "y"; "N"; "n"])).
Defined.

(** ** The titers of [main]: lines 209-214 *)

Lemma titers_loop_inr (volume dilution : Q)
  (items : list (string * list (list string))) :
  ∀ titers titers' : gmap string R,
    NoDup items.*1 →
    titers_loop items volume dilution titers = inr titers' →
    (∀ sample data, (sample, data) ∈ items →
       ∃ titer : R, Titer data volume dilution = inr titer ∧
                    titers' !! sample = Some titer) ∧
    (∀ sample, sample ∉ items.*1 → titers' !! sample = titers !! sample).
Proof.
  induction items as [|[s0 d0] items IH]; intros titers titers' Hnd Hrun.
  - injection Hrun as <-. split; [by intros ? ? ?%elem_of_nil | done].
  - cbn [titers_loop] in Hrun. rewrite fmap_cons in Hnd. cbn [fst] in Hnd.
    apply NoDup_cons in Hnd as [Hs0 Hnd].
    destruct (Titer d0 volume dilution) as [e|t0] eqn:Ht0; [done |].
    cbn [bind] in Hrun.
    destruct (IH _ _ Hnd Hrun) as [Hin Hout]. split.
    + intros sample data [[= -> ->]|Hitem]%elem_of_cons.
      * exists t0. split; [done |]. rewrite Hout by done.
        apply lookup_insert_eq.
      * by apply Hin.
    + intros sample. rewrite fmap_cons, not_elem_of_cons. cbn [fst].
      intros [Hne Hnin]. rewrite Hout by done. by rewrite lookup_insert_ne.
Qed.

Lemma titers_loop_runs (volume dilution : Q)
  (items : list (string * list (list string))) :
  ∀ titers : gmap string R,
    (∀ sample data, (sample, data) ∈ items →
       ∃ titer : R, Titer data volume dilution = inr titer) →
    ∃ titers' : gmap string R,
      titers_loop items volume dilution titers = inr titers'.
Proof.
  induction items as [|[s0 d0] items IH]; intros titers Hall.
  - by eexists.
  - cbn [titers_loop].
    destruct (Hall s0 d0) as [t0 ->]; [apply elem_of_cons; by left |].
    cbn [bind]. apply IH. intros sample data Hitem.
    apply (Hall sample data), elem_of_cons. by right.
Qed.

Lemma report_inr (titers : gmap string R) (samplenames : list string) :
  ∀ entries : list (string * R),
    report samplenames titers = inr entries ↔
    Forall2 (λ sample entry, entry.1 = sample ∧ titers !! sample = Some entry.2)
      samplenames entries.
Proof.
  induction samplenames as [|s names IH]; intros entries; cbn [report].
  - split.
    + intros [= <-]. apply Forall2_nil_2.
    + by intros ->%Forall2_nil_inv_l.
  - unfold getitem, ret, raise.
    destruct (titers !! s) as [t|] eqn:Hs; cbn [bind].
    + destruct (report names titers) as [e|entries'] eqn:Hrep; cbn [bind].
      * split; [done |].
        intros (entry & entries' & _ & H' & _)%Forall2_cons_inv_l.
        by apply IH in H'.
      * split.
        -- intros [= <-]. apply Forall2_cons. split; [done | by apply IH].
        -- intros ([s' t'] & entries'' & [Hs' Ht'] & H' & ->)%Forall2_cons_inv_l.
           simpl in Hs', Ht'. subst s'. apply IH in H'.
           congruence.
    + split; [done |].
      intros (entry & entries' & [_ H] & _)%Forall2_cons_inv_l. congruence.
Qed.

(** X14: [main] reports all the titers or none.  Whatever the order in
    which the dictionary yields its items, [main] gets a report exactly when
    [Titer] returns for every sample of the dictionary and every sample name
    is a key of it, and the report then lists the sample names in input
    order, each with the titer of its data. *)
Theorem main_titers_all_or_nothing
  (sampledata : gmap string (list (list string)))
  (items : list (string * list (list string)))
  (samplenames : list string) (volume dilution : Q)
  (entries : list (string * R)) :
  items ≡ₚ map_to_list sampledata →
  main_titers items samplenames volume dilution = inr entries ↔
  (∀ sample data, sampledata !! sample = Some data →
     ∃ titer : R, Titer data volume dilution = inr titer) ∧
  Forall2 (λ sample entry,
             entry.1 = sample ∧
             ∃ data, sampledata !! sample = Some data ∧
                     Titer data volume dilution = inr entry.2)
    samplenames entries.
Proof.
  intros Hitems.
  assert (Hnd : NoDup items.*1).
  { rewrite Hitems. apply NoDup_fst_map_to_list. }
  assert (Hitem : ∀ sample data,
            (sample, data) ∈ items ↔ sampledata !! sample = Some data).
  { intros sample data. by rewrite Hitems, elem_of_map_to_list. }
  unfold main_titers. split.
  - destruct (titers_loop items volume dilution ∅) as [e|titers] eqn:Hloop;
      [done |].
    cbn [bind]. intros Hrep%report_inr.
    destruct (titers_loop_inr _ _ _ _ _ Hnd Hloop) as [Hin Hout]. split.
    + intros sample data Hdata%Hitem.
      destruct (Hin sample data Hdata) as (t & Ht & _). by exists t.
    + eapply Forall2_impl; [exact Hrep |].
      intros sample [s t] [Hs Ht]. simpl in Hs, Ht. subst s.
      split; [done |]. simpl.
      destruct (decide (sample ∈ items.*1)) as [Hkey|Hkey].
      * apply list_elem_of_fmap in Hkey as ([s data] & -> & Hdata).
        simpl in *. exists data. split; [by apply Hitem |].
        destruct (Hin s data Hdata) as (t' & Ht' & Hlook). congruence.
      * rewrite (Hout sample Hkey), lookup_empty in Ht. done.
  - intros [Hall Hrep].
    destruct (titers_loop_runs volume dilution items ∅) as [titers Hloop].
    { intros sample data Hdata%Hitem. by apply (Hall sample data). }
    rewrite Hloop. cbn [bind]. apply report_inr.
    destruct (titers_loop_inr _ _ _ _ _ Hnd Hloop) as [Hin _].
    eapply Forall2_impl; [exact Hrep |].
    intros sample [s t] (Hs & data & Hdata & Ht). simpl in *. subst s.
    split; [done |].
    destruct (Hin sample data) as (t' & Ht' & Hlook); [by apply Hitem |].
    congruence.
Qed.

Lemma second_assay_crossing :
  bind (Titer_tables [["A"; "B"]; ["A"; "B"]])
    (λ t, Titer_crossing (percentinfected t))
  = inr (Crossing "B" (200 # 2) (0 # 2) (400 # 800) 1).
Proof. vm_compute. reflexivity. Qed.

Lemma main_titers_all_or_nothing_witness :
  main_titers
    [("second", [["A"; "B"]; ["A"; "B"]]); ("first", example_assay)]
    ["first"; "second"] (1 # 20) 10
  = inr [("first",
          (Rpower (Q2R 10) (Q2R (inject_Z 3 + (600 # 2400))) / Q2R (1 # 20))%R);
         ("second",
          (Rpower (Q2R 10) (Q2R (inject_Z 1 + (400 # 800))) / Q2R (1 # 20))%R)].
Proof.
  pose proof (Titer_run example_assay (1 # 20) 10 _ eq_refl eq_refl
                example_assay_crossing eq_refl eq_refl) as H1.
  pose proof (Titer_run [["A"; "B"]; ["A"; "B"]] (1 # 20) 10 _ eq_refl eq_refl
                second_assay_crossing eq_refl eq_refl) as H2.
  cbn [startdilution index] in H1, H2.
  apply (main_titers_all_or_nothing
           (list_to_map [("first", example_assay);
                         ("second", [["A"; "B"]; ["A"; "B"]])])).
  - apply (bool_decide_unpack
             ([("second", [["A"; "B"]; ["A"; "B"]]); ("first", example_assay)]
              ≡ₚ map_to_list
                   (list_to_map [("first", example_assay);
                                 ("second", [["A"; "B"]; ["A"; "B"]])]
                      : gmap string (list (list string))))).
    vm_compute. exact I.
  - split.
    + intros sample data Hdata.
      rewrite !list_to_map_cons, list_to_map_nil in Hdata. cbn [fst snd] in Hdata.
      apply lookup_insert_Some in Hdata as [[<- <-]|[_ Hdata]];
        [by eexists |].
      apply lookup_insert_Some in Hdata as [[<- <-]|[_ Hdata]];
        [by eexists |].
      by rewrite lookup_empty in Hdata.
    + apply Forall2_cons. split.
      { split; [done |]. exists example_assay. split; [done | exact H1]. }
      apply Forall2_cons. split; [|apply Forall2_nil_2].
      split; [done |]. exists [["A"; "B"]; ["A"; "B"]].
      split; [done | exact H2].
Defined.
